(** * Dialog enumeration of [telethon/client/dialogs.py]

    A shallow embedding of [DialogMethods.iter_dialogs] and
    [DialogMethods.get_dialogs], and the properties of the enumeration
    loop: deduplication, page truncation, page sizes, termination
    checks, the total counter and the cursor advance.

    The asynchronous generator is modelled by explicit state passing:
    the state holds what the generator has yielded so far and the
    requests it has awaited so far, so every statement about a state
    reached by the loop is a statement about a prefix of the
    generator's run. *)

From Stdlib Require Import ZArith List Lia.
From stdpp Require Import base gmap sets list.

Local Open Scope Z_scope.

(** ** Python helpers *)

(** [xs[:n]] for a list [xs] and an integer [n]: a negative [n] counts
    from the end of the list. *)
Definition py_slice_to {A : Type} (xs : list A) (n : Z) : list A :=
  if n <? 0
  then firstn (Z.to_nat (Z.max 0 (Z.of_nat (length xs) + n))) xs
  else firstn (Z.to_nat n) xs.

(** [xs[-1]]: the last element, an [IndexError] (here [None]) on the
    empty list. *)
Definition py_last {A : Type} (xs : list A) : option A := last xs.

(** [len(xs)] as a Python integer. *)
Definition len {A : Type} (xs : list A) : Z := Z.of_nat (length xs).

(** The exceptions the enumeration itself can raise. *)
Inductive Error : Type :=
| KeyError (key : Z)
| IndexError.

(** How one pass through the body of the [while] loop ends. *)
Inductive Flow : Type :=
| Next
| Break
| Raise (e : Error).

(** How a run of the generator stands: still inside the loop when the
    fuel ran out, returned, or stopped by an exception. *)
Inductive Status : Type :=
| Running
| Returned
| Raised (e : Error).

(** The shape of a response: [types.messages.Dialogs] is the complete
    list, [types.messages.DialogsSlice] a partial slice. *)
Inductive Shape : Type :=
| Dialogs
| DialogsSlice.

(** The [limit] argument after line 53: [float('inf')] for [None],
    [int(limit)] otherwise. *)
Inductive Limit : Type :=
| Inf
| Fin (n : Z).

(** [n < limit] *)
Definition lt_limit (n : Z) (limit : Limit) : bool :=
  match limit with
  | Inf => true
  | Fin l => n <? l
  end.

(** [n > limit] *)
Definition gt_limit (n : Z) (limit : Limit) : bool :=
  match limit with
  | Inf => false
  | Fin l => l <? n
  end.

(** [min(limit - n, 100)] *)
Definition page_size (limit : Limit) (n : Z) : Z :=
  match limit with
  | Inf => 100
  | Fin l => Z.min (l - n) 100
  end.

(** [limit == 0] *)
Definition limit_is_zero (limit : Limit) : bool :=
  match limit with
  | Inf => false
  | Fin l => l =? 0
  end.

Section Enumeration.

(** The TL types and the helpers of [telethon.utils] that
    [dialogs.py] uses but does not declare. *)
Variable Peer : Type.
Variable InputPeer : Type.
Variable Entity : Type.
Variable Date : Type.
(** [utils.get_peer_id] on the peer of a dialog. *)
Variable get_peer_id : Peer -> Z.
(** [utils.get_peer_id] on a user or chat object. *)
Variable get_entity_id : Entity -> Z.
(** [getattr(entity, 'migrated_to', None)], as the id it names. *)
Variable migrated_to : Entity -> option Z.

(** [types.Dialog]: one dialog as the service returns it. *)
Record DialogSummary : Type := mkSummary {
  peer : Peer;
  pinned : bool;
  top_message : Z;
  pts : option Z
}.

(** A message of a page, before [_finish_init]. *)
Record Message : Type := mkMessage {
  id : Z;
  date : Date
}.

(** A message after [m._finish_init(self, entities, None)]: bound to
    the entity table of its page. *)
Record BoundMessage : Type := mkBound {
  bm_message : Message;
  bm_entities : gmap Z Entity
}.

(** The response of [GetDialogsRequest]. [count] is
    [getattr(r, 'count', ...)]: [None] when the attribute is absent. *)
Record Response : Type := mkResponse {
  shape : Shape;
  count : option Z;
  dialogs : list DialogSummary;
  messages : list Message;
  users : list Entity;
  chats : list Entity
}.

(** [functions.messages.GetDialogsRequest]. The offset peer is the
    caller's input peer at first and an entity of a page later. *)
Record Request : Type := mkRequest {
  offset_date : option Date;
  offset_id : Z;
  offset_peer : InputPeer + Entity;
  limit : Z;
  hash : Z;
  exclude_pinned : bool
}.

(** Modelled from the spec: [custom.Dialog], whose class is not in
    [dialogs.py]. A record joins a dialog summary with its resolved
    entity and, if present, its last message; its identity is the
    peer identity of the dialog. *)
Record Dialog : Type := mkDialog {
  dialog : DialogSummary;
  entity : Entity;
  message : option BoundMessage;
  dialog_id : Z
}.

(** The remote service: the response to the [n]-th awaited request. *)
Variable rpc : nat -> Request -> Response.

(** What the generator owns and touches: the dedup set, the request
    object it keeps mutating, the cell of the [_total] list when one
    was passed, the client's [_channel_pts], the records yielded so
    far and the requests awaited so far (each as it was when sent). *)
Record State : Type := mkState {
  seen : gset Z;
  req : Request;
  total : option Z;
  channel_pts : gmap Z Z;
  yielded : list Dialog;
  sent : list Request
}.

(** [getattr(r, 'count', len(r.dialogs))] *)
Definition page_total (r : Response) : Z :=
  match count r with
  | Some c => c
  | None => len (dialogs r)
  end.

(** [{utils.get_peer_id(x): x for x in chain(r.users, r.chats)}]:
    a later item replaces an earlier one under the same key. *)
Definition build_entities (r : Response) : gmap Z Entity :=
  fold_left (fun m x => <[get_entity_id x := x]> m) (users r ++ chats r) ∅.

(** Lines 86-89: bind each message to the entities and index it by id. *)
Definition build_messages (entities : gmap Z Entity) (r : Response)
  : gmap Z BoundMessage :=
  fold_left (fun ms m => <[id m := mkBound m entities]> ms) (messages r) ∅.

(** Lines 91-93: the dialogs of the page that the [for] loop walks. *)
Definition page_dialogs (lim : Limit) (r : Response) : list DialogSummary :=
  if gt_limit (len (dialogs r)) lim
  then match lim with
       | Fin l => py_slice_to (dialogs r) l
       | Inf => dialogs r
       end
  else dialogs r.

(** Modelled from the spec: the constructor of [custom.Dialog]. The
    entity is looked up in the page's entity table under the peer
    identity of the dialog (a missing one is a [KeyError]); the last
    message is looked up by [top_message] and may be absent. *)
Definition Dialog_init (d : DialogSummary) (entities : gmap Z Entity)
    (msgs : gmap Z BoundMessage) : Error + Dialog :=
  match entities !! get_peer_id (peer d) with
  | None => inl (KeyError (get_peer_id (peer d)))
  | Some e => inr (mkDialog d e (msgs !! top_message d) (get_peer_id (peer d)))
  end.

(** [if cd.dialog.pts:] — [None] and [0] are both false. *)
Definition pts_truthy (p : option Z) : option Z :=
  match p with
  | Some v => if v =? 0 then None else Some v
  | None => None
  end.

(** [getattr(cd.entity, 'migrated_to', None) is None] *)
Definition not_migrated (cd : Dialog) : bool :=
  match migrated_to (entity cd) with
  | None => true
  | Some _ => false
  end.

Definition set_seen (s : gset Z) (st : State) : State :=
  mkState s (req st) (total st) (channel_pts st) (yielded st) (sent st).
Definition set_req (q : Request) (st : State) : State :=
  mkState (seen st) q (total st) (channel_pts st) (yielded st) (sent st).
Definition set_total (t : option Z) (st : State) : State :=
  mkState (seen st) (req st) t (channel_pts st) (yielded st) (sent st).
Definition set_channel_pts (c : gmap Z Z) (st : State) : State :=
  mkState (seen st) (req st) (total st) c (yielded st) (sent st).
Definition yield_ (cd : Dialog) (st : State) : State :=
  mkState (seen st) (req st) (total st) (channel_pts st)
          (yielded st ++ [cd]) (sent st).
(** [await self(q)]: the request is recorded as it is when sent. *)
Definition await (q : Request) (st : State) : Response * State :=
  (rpc (length (sent st)) q,
   mkState (seen st) (req st) (total st) (channel_pts st) (yielded st)
           (sent st ++ [q])).

(** Lines 96-105: the body of the [for] loop for one dialog. *)
Definition process_dialog (ignore_migrated : bool)
    (entities : gmap Z Entity) (msgs : gmap Z BoundMessage)
    (st : State) (d : DialogSummary) : State * option Error :=
  let peer_id := get_peer_id (peer d) in
  if decide (peer_id ∈ seen st) then (st, None)
  else
    let st1 := set_seen ({[peer_id]} ∪ seen st) st in
    match Dialog_init d entities msgs with
    | inl e => (st1, Some e)
    | inr cd =>
        let st2 := match pts_truthy (pts (dialog cd)) with
                   | Some p => set_channel_pts (<[dialog_id cd := p]> (channel_pts st1)) st1
                   | None => st1
                   end in
        if negb ignore_migrated || not_migrated cd
        then (yield_ cd st2, None)
        else (st2, None)
    end.

(** Lines 95-105: the [for] loop, left at the first exception. *)
Fixpoint for_dialogs (ignore_migrated : bool)
    (entities : gmap Z Entity) (msgs : gmap Z BoundMessage)
    (ds : list DialogSummary) (st : State) : State * option Error :=
  match ds with
  | [] => (st, None)
  | d :: ds' =>
      match process_dialog ignore_migrated entities msgs st d with
      | (st', None) => for_dialogs ignore_migrated entities msgs ds' st'
      | (st', Some e) => (st', Some e)
      end
  end.

Definition with_limit (n : Z) (q : Request) : Request :=
  mkRequest (offset_date q) (offset_id q) (offset_peer q) n (hash q)
            (exclude_pinned q).
Definition with_offset_date (d : option Date) (q : Request) : Request :=
  mkRequest d (offset_id q) (offset_peer q) (limit q) (hash q)
            (exclude_pinned q).
Definition with_offset_peer (p : InputPeer + Entity) (q : Request) : Request :=
  mkRequest (offset_date q) (offset_id q) p (limit q) (hash q)
            (exclude_pinned q).
Definition with_offset_id (i : Z) (q : Request) : Request :=
  mkRequest (offset_date q) i (offset_peer q) (limit q) (hash q)
            (exclude_pinned q).
Definition with_exclude_pinned (b : bool) (q : Request) : Request :=
  mkRequest (offset_date q) (offset_id q) (offset_peer q) (limit q) (hash q) b.

(** Lines 107-111: the two termination checks on the processed page. *)
Definition page_ends (ds : list DialogSummary) (q : Request) (r : Response)
  : bool :=
  (len ds <? limit q) ||
  match shape r with DialogsSlice => false | Dialogs => true end.

(** Lines 113-122: the cursor advance. *)
Definition advance_cursor (entities : gmap Z Entity)
    (ds : list DialogSummary) (r : Response) (st : State) : State * Flow :=
  match py_last (messages r) with
  | None => (st, Raise IndexError)
  | Some m =>
      let st1 := set_req (with_offset_date (Some (date m)) (req st)) st in
      match py_last ds with
      | None => (st1, Raise IndexError)
      | Some d =>
          match entities !! get_peer_id (peer d) with
          | None => (st1, Raise (KeyError (get_peer_id (peer d))))
          | Some e =>
              let st2 := set_req (with_offset_peer (inr e) (req st1)) st1 in
              if offset_id (req st2) =? id m then (st2, Break)
              else
                (set_req (with_exclude_pinned true
                            (with_offset_id (id m) (req st2))) st2,
                 Next)
          end
      end
  end.

(** Lines 77-122: one pass through the body of the [while] loop. *)
Definition loop_body (lim : Limit) (ignore_migrated : bool) (st : State)
  : State * Flow :=
  let st0 := set_req (with_limit (page_size lim (Z.of_nat (size (seen st))))
                                 (req st)) st in
  let '(r, st1) := await (req st0) st0 in
  let st2 := match total st1 with
             | Some _ => set_total (Some (page_total r)) st1
             | None => st1
             end in
  let entities := build_entities r in
  let msgs := build_messages entities r in
  let ds := page_dialogs lim r in
  match for_dialogs ignore_migrated entities msgs ds st2 with
  | (st3, Some e) => (st3, Raise e)
  | (st3, None) =>
      if page_ends ds (req st3) r then (st3, Break)
      else advance_cursor entities ds r st3
  end.

(** Lines 76-122: the [while] loop, for at most [fuel] passes. *)
Fixpoint while_loop (fuel : nat) (lim : Limit) (ignore_migrated : bool)
    (st : State) : State * Status :=
  if lt_limit (Z.of_nat (size (seen st))) lim then
    match fuel with
    | O => (st, Running)
    | S fuel' =>
        match loop_body lim ignore_migrated st with
        | (st', Next) => while_loop fuel' lim ignore_migrated st'
        | (st', Break) => (st', Returned)
        | (st', Raise e) => (st', Raised e)
        end
    end
  else (st, Returned).

(** The state when the generator starts: nothing seen, yielded or
    sent; [_total] and the client's [_channel_pts] as passed. *)
Definition start (q : Request) (_total : option Z) (cpts : gmap Z Z) : State :=
  mkState ∅ q _total cpts [] [].

(** [iter_dialogs], lines 53-122. [lim] is the limit after line 53,
    [_total] the content of the one-item list when one is passed,
    [cpts] the client's [_channel_pts] at the call. *)
Definition iter_dialogs (fuel : nat) (lim : Limit)
    (offset_date0 : option Date) (offset_id0 : Z)
    (offset_peer0 : InputPeer) (ignore_migrated : bool)
    (_total : option Z) (cpts : gmap Z Z) : State * Status :=
  if limit_is_zero lim then
    match _total with
    | None =>
        (start (mkRequest offset_date0 offset_id0 (inl offset_peer0) 0 0 false)
               None cpts, Returned)
    | Some _ =>
        let q := mkRequest offset_date0 offset_id0 (inl offset_peer0) 1 0 false in
        let '(r, st) := await q (start q _total cpts) in
        (set_total (Some (page_total r)) st, Returned)
    end
  else
    while_loop fuel lim ignore_migrated
      (start (mkRequest offset_date0 offset_id0 (inl offset_peer0) 0 0 false)
             _total cpts).

(** [get_dialogs], lines 124-135: the records in order and the total,
    when the generator returns. *)
Definition get_dialogs (fuel : nat) (lim : Limit)
    (offset_date0 : option Date) (offset_id0 : Z)
    (offset_peer0 : InputPeer) (ignore_migrated : bool)
    (cpts : gmap Z Z) : Status * option (list Dialog * Z) :=
  match iter_dialogs fuel lim offset_date0 offset_id0 offset_peer0
                     ignore_migrated (Some 0) cpts with
  | (st, Returned) =>
      (Returned, Some (yielded st, match total st with Some t => t | None => 0 end))
  | (_, s) => (s, None)
  end.

(** The peer identity of an emitted record. *)
Definition record_peer_id (cd : Dialog) : Z := get_peer_id (peer (dialog cd)).

(** The request of the next pass, as it is sent, and its response. *)
Definition next_request (lim : Limit) (st : State) : Request :=
  with_limit (page_size lim (Z.of_nat (size (seen st)))) (req st).
Definition next_response (lim : Limit) (st : State) : Response :=
  rpc (length (sent st)) (next_request lim st).

(** The state at the head of the [for] loop of the next pass. *)
Definition at_page (lim : Limit) (st : State) : State :=
  mkState (seen st) (next_request lim st)
          (match total st with
           | Some _ => Some (page_total (next_response lim st))
           | None => None
           end)
          (channel_pts st) (yielded st) (sent st ++ [next_request lim st]).

(** The state after the [for] loop of the next pass, and its error. *)
Definition after_page (lim : Limit) (ignore_migrated : bool) (st : State)
  : State * option Error :=
  let r := next_response lim st in
  for_dialogs ignore_migrated (build_entities r)
              (build_messages (build_entities r) r)
              (page_dialogs lim r) (at_page lim st).

(** Every emitted record has its peer identity in the dedup set, and
    no two emitted records share one. *)
Definition dedup_inv (st : State) : Prop :=
  NoDup (map record_peer_id (yielded st)) /\
  (forall cd, cd ∈ yielded st -> record_peer_id cd ∈ seen st) /\
  (length (yielded st) <= size (seen st))%nat.

(** The total of the page fetched last, [0] before any fetch. *)
Definition last_total (st : State) : Z :=
  match py_last (sent st) with
  | Some q => page_total (rpc (length (sent st) - 1) q)
  | None => 0
  end.

(** The total cell holds the total of the page fetched last. *)
Definition total_inv (st : State) : Prop := total st = Some (last_total st).


(** ** Frame lemmas *)

Lemma loop_body_eq lim ign st :
  loop_body lim ign st =
  let r := next_response lim st in
  match after_page lim ign st with
  | (st3, Some e) => (st3, Raise e)
  | (st3, None) =>
      if page_ends (page_dialogs lim r) (req st3) r then (st3, Break)
      else advance_cursor (build_entities r) (page_dialogs lim r) r st3
  end.
Proof.
  unfold loop_body, after_page, at_page, next_response, next_request, await.
  simpl. destruct (total st); reflexivity.
Qed.

Lemma process_dialog_frame ign ents ms st d :
  let st' := fst (process_dialog ign ents ms st d) in
  req st' = req st /\ total st' = total st /\ sent st' = sent st.
Proof.
  unfold process_dialog. simpl.
  destruct (decide _); [done|].
  destruct (Dialog_init d ents ms) as [e|cd]; [done|].
  destruct (pts_truthy _), (negb ign || not_migrated cd); done.
Qed.

Lemma for_dialogs_frame ign ents ms ds : forall st,
  let st' := fst (for_dialogs ign ents ms ds st) in
  req st' = req st /\ total st' = total st /\ sent st' = sent st.
Proof.
  induction ds as [|d ds IH]; intros st; simpl; [done|].
  pose proof (process_dialog_frame ign ents ms st d) as Hp.
  destruct (process_dialog ign ents ms st d) as [st1 [e|]]; simpl in *; [done|].
  specialize (IH st1). simpl in IH.
  destruct Hp as (<- & <- & <-). exact IH.
Qed.

Lemma after_page_frame lim ign st :
  let st' := fst (after_page lim ign st) in
  req st' = next_request lim st /\
  total st' = total (at_page lim st) /\
  sent st' = sent st ++ [next_request lim st].
Proof.
  unfold after_page.
  exact (for_dialogs_frame ign _ _ _ (at_page lim st)).
Qed.

Lemma advance_cursor_frame ents ds r st :
  let st' := fst (advance_cursor ents ds r st) in
  seen st' = seen st /\ total st' = total st /\
  channel_pts st' = channel_pts st /\ yielded st' = yielded st /\
  sent st' = sent st.
Proof.
  unfold advance_cursor.
  destruct (py_last (messages r)) as [m|]; [|done].
  destruct (py_last ds) as [d|]; [|done].
  destruct (_ !! _) as [e|]; [|done].
  simpl. destruct (_ =? _); done.
Qed.

(** One pass awaits exactly one request: the next request. *)
Lemma loop_body_sent lim ign st :
  sent (fst (loop_body lim ign st)) = sent st ++ [next_request lim st].
Proof.
  rewrite loop_body_eq. simpl.
  pose proof (after_page_frame lim ign st) as Hf.
  destruct (after_page lim ign st) as [st3 [e|]]; simpl in *; [apply Hf|].
  destruct (page_ends _ _ _); simpl; [apply Hf|].
  pose proof (advance_cursor_frame (build_entities (next_response lim st))
    (page_dialogs lim (next_response lim st)) (next_response lim st) st3) as Ha.
  simpl in Ha. destruct Ha as (_ & _ & _ & _ & ->). apply Hf.
Qed.

(** One pass leaves in the total cell the total of its page. *)
Lemma loop_body_total lim ign st :
  total (fst (loop_body lim ign st)) = total (at_page lim st).
Proof.
  rewrite loop_body_eq. simpl.
  pose proof (after_page_frame lim ign st) as Hf.
  destruct (after_page lim ign st) as [st3 [e|]]; simpl in *; [apply Hf|].
  destruct (page_ends _ _ _); simpl; [apply Hf|].
  pose proof (advance_cursor_frame (build_entities (next_response lim st))
    (page_dialogs lim (next_response lim st)) (next_response lim st) st3) as Ha.
  simpl in Ha. destruct Ha as (_ & -> & _). apply Hf.
Qed.

(** An entity found in the table of a page has the key it was found
    under as its own peer identity: the identity of a record is the
    same whether it is taken from the dialog or from its entity. *)
Lemma build_entities_key r k e :
  build_entities r !! k = Some e -> get_entity_id e = k.
Proof.
  unfold build_entities.
  assert (H : forall xs (m : gmap Z Entity),
             (forall k e, m !! k = Some e -> get_entity_id e = k) ->
             forall k e,
               fold_left (fun m x => <[get_entity_id x := x]> m) xs m !! k = Some e ->
               get_entity_id e = k).
  { induction xs as [|x xs IH]; intros m Hm k' e'; simpl; [apply Hm|].
    apply IH. intros k2 e2. rewrite lookup_insert.
    case_decide; [intros [= <-]; assumption | apply Hm]. }
  apply H. intros k' e'. rewrite lookup_empty. discriminate.
Qed.

Lemma Dialog_init_id d r ms cd :
  Dialog_init d (build_entities r) ms = inr cd ->
  dialog_id cd = get_entity_id (entity cd) /\
  dialog_id cd = get_peer_id (peer (dialog cd)).
Proof.
  unfold Dialog_init.
  destruct (build_entities r !! get_peer_id (peer d)) as [e|] eqn:He;
    [|discriminate].
  intros [= <-]. simpl. split; [|reflexivity].
  symmetry. apply (build_entities_key r _ _ He).
Qed.

(** ** The dedup set and the emitted records *)

Lemma dedup_inv_start q t c : dedup_inv (start q t c).
Proof.
  unfold dedup_inv, start; simpl. split; [constructor|].
  split; [intros cd H; inversion H | lia].
Qed.

Lemma Dialog_init_dialog d ents ms cd :
  Dialog_init d ents ms = inr cd -> dialog cd = d.
Proof.
  unfold Dialog_init. destruct (_ !! _); [|discriminate].
  intros [= <-]. reflexivity.
Qed.

Lemma dedup_inv_channel_pts c st :
  dedup_inv st -> dedup_inv (set_channel_pts c st).
Proof. intros H. exact H. Qed.

Lemma dedup_inv_add_seen pid st :
  dedup_inv st -> pid ∉ seen st ->
  dedup_inv (set_seen ({[pid]} ∪ seen st) st) /\
  (length (yielded st) < size ({[pid]} ∪ seen st))%nat /\
  pid ∉ map record_peer_id (yielded st).
Proof.
  intros (Hnd & Hin & Hlen) Hs.
  assert (Hsz : size ({[pid]} ∪ seen st) = S (size (seen st))).
  { rewrite size_union by set_solver. rewrite size_singleton. reflexivity. }
  split; [|split].
  - unfold dedup_inv; simpl. split; [done|]. split; [|lia].
    intros cd Hc. apply Hin in Hc. set_solver.
  - lia.
  - intros Hm. apply list_elem_of_fmap in Hm as (cd' & Heq & Hc).
    apply Hin in Hc. rewrite <- Heq in Hc. contradiction.
Qed.

Lemma dedup_inv_yield cd st :
  dedup_inv st ->
  record_peer_id cd ∈ seen st ->
  record_peer_id cd ∉ map record_peer_id (yielded st) ->
  (length (yielded st) < size (seen st))%nat ->
  dedup_inv (yield_ cd st).
Proof.
  intros (Hnd & Hin & _) Hs Hfresh Hlen. unfold dedup_inv; simpl.
  rewrite map_app, length_app; simpl. split; [|split; [|lia]].
  - apply NoDup_app. split; [done|]. split; [|apply NoDup_singleton].
    intros x Hx Hx'. apply list_elem_of_singleton in Hx'. subst x. contradiction.
  - intros c Hc. apply elem_of_app in Hc as [Hc|Hc].
    + apply Hin, Hc.
    + apply list_elem_of_singleton in Hc. subst c. exact Hs.
Qed.

Lemma process_dialog_inv ign ents ms st d :
  dedup_inv st -> dedup_inv (fst (process_dialog ign ents ms st d)).
Proof.
  intros Hst. unfold process_dialog.
  destruct (decide _) as [Hs|Hs]; [done|].
  destruct (dedup_inv_add_seen _ _ Hst Hs) as (H1 & Hlen & Hfresh).
  destruct (Dialog_init d ents ms) as [e|cd] eqn:Hcd; simpl; [done|].
  apply Dialog_init_dialog in Hcd.
  assert (Hid : record_peer_id cd = get_peer_id (peer d))
    by (unfold record_peer_id; rewrite Hcd; reflexivity).
  destruct (pts_truthy _), (negb ign || not_migrated cd); simpl; try done.
  all: apply dedup_inv_yield; simpl; rewrite ?Hid; try done; set_solver.
Qed.

Lemma for_dialogs_inv ign ents ms ds : forall st,
  dedup_inv st -> dedup_inv (fst (for_dialogs ign ents ms ds st)).
Proof.
  induction ds as [|d ds IH]; intros st Hst; simpl; [done|].
  pose proof (process_dialog_inv ign ents ms st d Hst) as Hp.
  destruct (process_dialog ign ents ms st d) as [st1 [e|]]; simpl in *; [done|].
  apply IH, Hp.
Qed.

Lemma loop_body_inv lim ign st :
  dedup_inv st -> dedup_inv (fst (loop_body lim ign st)).
Proof.
  intros Hst. rewrite loop_body_eq. simpl.
  assert (Hp : dedup_inv (fst (after_page lim ign st))).
  { unfold after_page. apply for_dialogs_inv. exact Hst. }
  destruct (after_page lim ign st) as [st3 [e|]]; simpl in *; [done|].
  destruct (page_ends _ _ _); simpl; [done|].
  pose proof (advance_cursor_frame (build_entities (next_response lim st))
    (page_dialogs lim (next_response lim st)) (next_response lim st) st3) as Ha.
  simpl in Ha. destruct Ha as (Hs & _ & _ & Hy & _).
  unfold dedup_inv. rewrite Hs, Hy. exact Hp.
Qed.

Lemma while_loop_inv lim ign fuel : forall st,
  dedup_inv st -> dedup_inv (fst (while_loop fuel lim ign st)).
Proof.
  induction fuel as [|fuel IH]; intros st Hst; simpl.
  - destruct (lt_limit _ _); done.
  - destruct (lt_limit _ _); [|done].
    pose proof (loop_body_inv lim ign st Hst) as Hb.
    destruct (loop_body lim ign st) as [st' [| |e]]; simpl in *; auto.
Qed.

Lemma iter_dialogs_inv fuel lim od oid op ign t c :
  dedup_inv (fst (iter_dialogs fuel lim od oid op ign t c)).
Proof.
  unfold iter_dialogs. destruct (limit_is_zero lim).
  - destruct t; simpl; apply (dedup_inv_start
      (mkRequest od oid (inl op) 0 0 false) None c).
  - apply while_loop_inv, dedup_inv_start.
Qed.

(** C1: in every run of [iter_dialogs], for any limit, any service
    and any number of pages fetched so far, no peer identity occurs
    twice among the records yielded. *)
Theorem iter_dialogs_no_duplicate_peer fuel lim od oid op ign t c :
  NoDup (map record_peer_id
             (yielded (fst (iter_dialogs fuel lim od oid op ign t c)))).
Proof. apply iter_dialogs_inv. Qed.

(** ** The call with limit 0 *)

(** C6: with limit 0 and no total handle, nothing is yielded and no
    request is sent; with a handle, exactly one request is sent, of
    size 1 with the caller's offsets, the total of its page (its
    [count] when it has one, the number of its dialogs otherwise) is
    written into the handle, and nothing is yielded. *)
Theorem iter_dialogs_limit_zero fuel od oid op ign c :
  (let '(st, s) := iter_dialogs fuel (Fin 0) od oid op ign None c in
   s = Returned /\ yielded st = [] /\ sent st = [] /\ total st = None) /\
  (forall t,
     let q := mkRequest od oid (inl op) 1 0 false in
     let '(st, s) := iter_dialogs fuel (Fin 0) od oid op ign (Some t) c in
     s = Returned /\ yielded st = [] /\ sent st = [q] /\
     total st = Some (match count (rpc 0%nat q) with
                      | Some n => n
                      | None => Z.of_nat (length (dialogs (rpc 0%nat q)))
                      end)).
Proof.
  split; [|intros t]; unfold iter_dialogs, page_total, len; simpl;
    repeat split; reflexivity.
Qed.

(** ** The total counter *)

Lemma last_total_snoc st' st q :
  sent st' = sent st ++ [q] ->
  last_total st' = page_total (rpc (length (sent st)) q).
Proof.
  intros Hs. unfold last_total, py_last. rewrite Hs, last_snoc, length_app.
  simpl. do 3 f_equal. lia.
Qed.

Lemma loop_body_total_inv lim ign st :
  total_inv st -> total_inv (fst (loop_body lim ign st)).
Proof.
  unfold total_inv. intros Ht.
  rewrite loop_body_total. simpl. rewrite Ht.
  rewrite (last_total_snoc _ st _ (loop_body_sent lim ign st)).
  reflexivity.
Qed.

Lemma while_loop_total_inv lim ign fuel : forall st,
  total_inv st -> total_inv (fst (while_loop fuel lim ign st)).
Proof.
  induction fuel as [|fuel IH]; intros st Hst; simpl.
  - destruct (lt_limit _ _); done.
  - destruct (lt_limit _ _); [|done].
    pose proof (loop_body_total_inv lim ign st Hst) as Hb.
    destruct (loop_body lim ign st) as [st' [| |e]]; simpl in *; auto.
Qed.

Lemma iter_dialogs_total_inv fuel lim od oid op ign c :
  total_inv (fst (iter_dialogs fuel lim od oid op ign (Some 0) c)).
Proof.
  unfold iter_dialogs. destruct (limit_is_zero lim).
  - reflexivity.
  - apply while_loop_total_inv. reflexivity.
Qed.

(** [get_dialogs] in terms of the run of the generator it drains. *)
Lemma get_dialogs_drains fuel lim od oid op ign c :
  get_dialogs fuel lim od oid op ign c =
  (let '(st, s) := iter_dialogs fuel lim od oid op ign (Some 0) c in
   match s with
   | Returned => (Returned, Some (yielded st, last_total st))
   | _ => (s, None)
   end).
Proof.
  unfold get_dialogs.
  pose proof (iter_dialogs_total_inv fuel lim od oid op ign c) as Ht.
  destruct (iter_dialogs fuel lim od oid op ign (Some 0) c) as [st [| |e]];
    simpl in *; try reflexivity.
  rewrite Ht. reflexivity.
Qed.

(** ** Truncation of a page *)

Lemma len_firstn {A} (xs : list A) (l : Z) :
  0 <= l -> l <= len xs -> len (firstn (Z.to_nat l) xs) = l.
Proof.
  unfold len. intros H0 Hl. rewrite length_firstn. lia.
Qed.

(** Lines 91-93 on their own: a dialog list longer than the limit is
    cut to its first [limit] items; any other list, and every list
    under an unbounded limit, is left whole. *)
Lemma page_dialogs_cut_to_limit (l : Z) (r : Response) :
  0 <= l ->
  (l < len (dialogs r) ->
     page_dialogs (Fin l) r = firstn (Z.to_nat l) (dialogs r) /\
     len (page_dialogs (Fin l) r) = l /\
     (forall n, page_size (Fin l) n = l ->
                len (page_dialogs (Fin l) r) = page_size (Fin l) n)) /\
  (len (dialogs r) <= l -> page_dialogs (Fin l) r = dialogs r) /\
  page_dialogs Inf r = dialogs r.
Proof.
  intros H0. unfold page_dialogs, gt_limit.
  split; [|split; [|reflexivity]].
  - intros Hl. pose proof Hl as Hl'. apply Z.ltb_lt in Hl'. rewrite Hl'.
    unfold py_slice_to.
    destruct (l <? 0) eqn:E; [apply Z.ltb_lt in E; lia|].
    assert (Hlen : len (firstn (Z.to_nat l) (dialogs r)) = l)
      by (apply len_firstn; lia).
    split; [reflexivity|]. split; [exact Hlen|].
    intros n Hn. rewrite Hn. exact Hlen.
  - intros Hl. destruct (l <? len (dialogs r)) eqn:E; [|reflexivity].
    apply Z.ltb_lt in E. lia.
Qed.

(** ** One dialog of a page *)

(** What [process_dialog] does with a dialog that is not in the dedup
    set and whose entity is in the entity table of the page. *)
Lemma process_dialog_unseen ign ents ms st d e :
  get_peer_id (peer d) ∉ seen st ->
  ents !! get_peer_id (peer d) = Some e ->
  let pid := get_peer_id (peer d) in
  let cd := mkDialog d e (ms !! top_message d) pid in
  let st1 := set_seen ({[pid]} ∪ seen st) st in
  let st2 := match pts_truthy (pts d) with
             | Some p => set_channel_pts (<[pid := p]> (channel_pts st1)) st1
             | None => st1
             end in
  process_dialog ign ents ms st d =
  (if negb ign || not_migrated cd then yield_ cd st2 else st2, None).
Proof.
  intros Hs He. unfold process_dialog, Dialog_init.
  destruct (decide _); [contradiction|]. rewrite He. simpl.
  destruct (negb ign || _); reflexivity.
Qed.








(** ** The passes of the loop *)

Lemma page_size_bounds lim n :
  lt_limit n lim = true -> 0 <= n ->
  1 <= page_size lim n <= 100 /\
  (forall l, lim = Fin l -> page_size lim n <= l).
Proof.
  destruct lim as [|l]; simpl; intros Hlt Hn.
  - split; [lia | discriminate].
  - apply Z.ltb_lt in Hlt. split; [lia|]. intros l' [= <-]. lia.
Qed.

(** Under the loop guard, the check on line 107 sees the same on the
    page as returned and on the page as cut. *)
Lemma short_page_not_cut lim n (r : Response) :
  lt_limit n lim = true -> 0 <= n ->
  len (dialogs r) < page_size lim n ->
  page_dialogs lim r = dialogs r.
Proof.
  intros Hlt Hn Hshort. unfold page_dialogs.
  destruct lim as [|l]; [reflexivity|]. simpl.
  destruct (page_size_bounds (Fin l) n Hlt Hn) as (_ & Hl).
  specialize (Hl l eq_refl).
  destruct (l <? len (dialogs r)) eqn:E; [|reflexivity].
  apply Z.ltb_lt in E. lia.
Qed.

(** One more pass, seen from the state the loop has reached. *)
Lemma while_loop_step lim ign k : forall st0 st,
  while_loop k lim ign st0 = (st, Running) ->
  lt_limit (Z.of_nat (size (seen st))) lim = true /\
  while_loop (S k) lim ign st0 =
    match loop_body lim ign st with
    | (st', Next) =>
        (st', if lt_limit (Z.of_nat (size (seen st'))) lim
              then Running else Returned)
    | (st', Break) => (st', Returned)
    | (st', Raise e) => (st', Raised e)
    end.
Proof.
  induction k as [|k IH]; intros st0 st.
  - simpl. destruct (lt_limit _ lim) eqn:G; [|discriminate].
    intros [= <-]. split; [exact G|].
    destruct (loop_body lim ign st0) as [st' [| |e]]; try reflexivity.
    destruct (lt_limit (Z.of_nat (size (seen st'))) lim); reflexivity.
  - intros H. cbn [while_loop] in H.
    destruct (lt_limit (Z.of_nat (size (seen st0))) lim) eqn:G; [|discriminate].
    destruct (loop_body lim ign st0) as [st1 [| |e]] eqn:B; try discriminate.
    destruct (IH st1 st H) as (G' & Hstep). split; [exact G'|].
    change (while_loop (S (S k)) lim ign st0) with
      (if lt_limit (Z.of_nat (size (seen st0))) lim
       then match loop_body lim ign st0 with
            | (st', Next) => while_loop (S k) lim ign st'
            | (st', Break) => (st', Returned)
            | (st', Raise e) => (st', Raised e)
            end
       else (st0, Returned)).
    rewrite G, B. exact Hstep.
Qed.

(** A pass that ends the loop ends it for every amount of fuel. *)
Lemma while_loop_last_pass lim ign fuel st :
  lt_limit (Z.of_nat (size (seen st))) lim = true ->
  snd (loop_body lim ign st) <> Next ->
  while_loop (S fuel) lim ign st =
    (fst (loop_body lim ign st),
     match snd (loop_body lim ign st) with
     | Raise e => Raised e
     | _ => Returned
     end).
Proof.
  intros G Hn. simpl. rewrite G.
  destruct (loop_body lim ign st) as [st' [| |e]]; simpl in *;
    [contradiction | reflexivity | reflexivity].
Qed.

(** C3, as the code has it: with a finite positive limit the loop
    fetches its first page, and then fetches another page exactly
    while the size of the dedup set (every distinct dialog walked so
    far, yielded or not) is below the limit, stopping otherwise only
    on a termination condition or an exception; each fetch asks for
    [min(limit - size of the dedup set, 100)] dialogs with the cursor
    the request object holds; and the number of yielded records never
    exceeds the size of the dedup set. *)
Theorem loop_runs_on_dedup_size (l : Z) ign k od oid op t c st :
  0 < l ->
  while_loop k (Fin l) ign
    (start (mkRequest od oid (inl op) 0 0 false) t c) = (st, Running) ->
  while_loop 0 (Fin l) ign (start (mkRequest od oid (inl op) 0 0 false) t c)
    = (start (mkRequest od oid (inl op) 0 0 false) t c, Running) /\
  Z.of_nat (size (seen st)) < l /\
  sent (fst (loop_body (Fin l) ign st)) =
    sent st ++ [mkRequest (offset_date (req st)) (offset_id (req st))
                          (offset_peer (req st))
                          (Z.min (l - Z.of_nat (size (seen st))) 100)
                          (hash (req st)) (exclude_pinned (req st))] /\
  while_loop (S k) (Fin l) ign
    (start (mkRequest od oid (inl op) 0 0 false) t c) =
    match loop_body (Fin l) ign st with
    | (st', Next) =>
        (st', if Z.of_nat (size (seen st')) <? l then Running else Returned)
    | (st', Break) => (st', Returned)
    | (st', Raise e) => (st', Raised e)
    end /\
  (length (yielded st) <= size (seen st))%nat /\
  (length (yielded (fst (loop_body (Fin l) ign st)))
     <= size (seen (fst (loop_body (Fin l) ign st))))%nat.
Proof.
  intros Hl H.
  destruct (while_loop_step (Fin l) ign k _ st H) as (G & Hstep).
  assert (Hinv : dedup_inv st).
  { pose proof (while_loop_inv (Fin l) ign k _
      (dedup_inv_start (mkRequest od oid (inl op) 0 0 false) t c)) as Hi.
    rewrite H in Hi. exact Hi. }
  split.
  { cbn [while_loop seen start lt_limit]. rewrite size_empty.
    replace (Z.of_nat 0 <? l) with true by (symmetry; apply Z.ltb_lt; lia).
    reflexivity. }
  split; [apply Z.ltb_lt, G|].
  split; [apply loop_body_sent|].
  split; [exact Hstep|]. split; [apply Hinv|].
  apply (loop_body_inv (Fin l) ign st Hinv).
Qed.

(** ** The end of a pass *)

Lemma loop_body_ok lim ign st :
  snd (after_page lim ign st) = None ->
  let r := next_response lim st in
  let ds := page_dialogs lim r in
  loop_body lim ign st =
    if page_ends ds (next_request lim st) r
    then (fst (after_page lim ign st), Break)
    else advance_cursor (build_entities r) ds r (fst (after_page lim ign st)).
Proof.
  intros Hok. rewrite loop_body_eq. simpl.
  pose proof (after_page_frame lim ign st) as (Hr & _).
  destruct (after_page lim ign st) as [st3 [e|]]; simpl in *; [discriminate|].
  rewrite Hr. reflexivity.
Qed.

(** C5: when the dialogs of a fetched page were walked without an
    exception and the page has fewer dialogs than the request asked
    for (counted as returned or as cut, which is the same here), or
    the response is the complete shape and not a slice, the pass
    breaks out of the loop: the generator returns without another
    request, whatever the limit and the number of records yielded. *)
Theorem short_or_complete_page_stops fuel lim ign st :
  lt_limit (Z.of_nat (size (seen st))) lim = true ->
  snd (after_page lim ign st) = None ->
  len (dialogs (next_response lim st)) < limit (next_request lim st) \/
  len (page_dialogs lim (next_response lim st)) < limit (next_request lim st) \/
  shape (next_response lim st) = Dialogs ->
  loop_body lim ign st = (fst (after_page lim ign st), Break) /\
  while_loop (S fuel) lim ign st = (fst (after_page lim ign st), Returned) /\
  sent (fst (after_page lim ign st)) = sent st ++ [next_request lim st].
Proof.
  intros G Hok Hend.
  assert (Hpe : page_ends (page_dialogs lim (next_response lim st))
                          (next_request lim st) (next_response lim st) = true).
  { unfold page_ends. destruct Hend as [Hs|[Hs|Hs]].
    - simpl in Hs. rewrite (short_page_not_cut lim _ _ G (Zle_0_nat _) Hs).
      apply orb_true_iff. left. apply Z.ltb_lt. exact Hs.
    - apply orb_true_iff. left. apply Z.ltb_lt. exact Hs.
    - rewrite Hs. apply orb_true_r. }
  assert (Hb : loop_body lim ign st = (fst (after_page lim ign st), Break)).
  { rewrite (loop_body_ok lim ign st Hok). simpl. rewrite Hpe. reflexivity. }
  split; [exact Hb|]. split.
  - rewrite while_loop_last_pass; rewrite ?Hb; simpl; [reflexivity|exact G|discriminate].
  - apply after_page_frame.
Qed.

Lemma full_page_has_last lim st :
  lt_limit (Z.of_nat (size (seen st))) lim = true ->
  page_ends (page_dialogs lim (next_response lim st))
            (next_request lim st) (next_response lim st) = false ->
  exists d, py_last (page_dialogs lim (next_response lim st)) = Some d.
Proof.
  intros G Hpe. unfold page_ends in Hpe. apply orb_false_iff in Hpe as (Hl & _).
  apply Z.ltb_ge in Hl. simpl in Hl.
  destruct (page_size_bounds lim _ G (Zle_0_nat (size (seen st)))) as (Hp & _).
  destruct (py_last (page_dialogs lim (next_response lim st))) as [d|] eqn:E;
    [eauto|].
  apply last_None in E. rewrite E in Hl. unfold len in Hl. simpl in Hl. lia.
Qed.

(** C10: on a page that passes both termination checks the cursor
    advance reads the last message of the page and the entity of the
    peer of the last dialog walked. The pass raises [IndexError] when
    the page has no message, [KeyError] when that peer is not in the
    entity table of the page, and otherwise ends without an
    exception: the advance succeeds exactly when the page has a
    message and the peer of its last dialog resolves. *)
Theorem cursor_advance_needs_message_and_entity lim ign st :
  lt_limit (Z.of_nat (size (seen st))) lim = true ->
  snd (after_page lim ign st) = None ->
  page_ends (page_dialogs lim (next_response lim st))
            (next_request lim st) (next_response lim st) = false ->
  let r := next_response lim st in
  exists d, py_last (page_dialogs lim r) = Some d /\
    snd (loop_body lim ign st) =
      match py_last (messages r) with
      | None => Raise IndexError
      | Some m =>
          match build_entities r !! get_peer_id (peer d) with
          | None => Raise (KeyError (get_peer_id (peer d)))
          | Some e => if offset_id (req st) =? id m then Break else Next
          end
      end /\
    ((exists e, snd (loop_body lim ign st) = Raise e) <->
     (messages r = [] \/ build_entities r !! get_peer_id (peer d) = None)).
Proof.
  intros G Hok Hpe r.
  destruct (full_page_has_last lim st G Hpe) as (d & Hd).
  fold r in Hpe, Hd.
  exists d. split; [exact Hd|].
  assert (Hb : snd (loop_body lim ign st) =
      match py_last (messages r) with
      | None => Raise IndexError
      | Some m =>
          match build_entities r !! get_peer_id (peer d) with
          | None => Raise (KeyError (get_peer_id (peer d)))
          | Some e => if offset_id (req st) =? id m then Break else Next
          end
      end).
  { rewrite (loop_body_ok lim ign st Hok). simpl. fold r. rewrite Hpe.
    pose proof (after_page_frame lim ign st) as (Hr & _). simpl in Hr.
    unfold advance_cursor. rewrite Hd.
    destruct (py_last (messages r)) as [m|]; [|reflexivity].
    destruct (build_entities r !! get_peer_id (peer d)) as [e|]; [|reflexivity].
    simpl. rewrite Hr. simpl.
    destruct (offset_id (req st) =? id m); reflexivity. }
  split; [exact Hb|]. rewrite Hb. unfold py_last.
  destruct (last (messages r)) as [m|] eqn:Em.
  - assert (Hne : messages r <> []) by (intros E; rewrite E in Em; discriminate).
    destruct (build_entities r !! get_peer_id (peer d)) as [e|].
    + split; [intros (x & Hx); destruct (_ =? _); discriminate|].
      intros [H|H]; [contradiction | discriminate].
    + split; eauto.
  - apply last_None in Em. split; eauto.
Qed.

(** ** The stuck cursor *)

Lemma advance_cursor_stuck ents ds r st m :
  py_last (messages r) = Some m ->
  id m = offset_id (req st) ->
  snd (advance_cursor ents ds r st) <> Next.
Proof.
  intros Hm Hid. unfold advance_cursor. rewrite Hm.
  destruct (py_last ds) as [d|]; [|discriminate].
  destruct (ents !! _) as [e|]; [|discriminate].
  simpl. rewrite <- Hid, Z.eqb_refl. discriminate.
Qed.

Lemma advance_cursor_next ents ds r st st' :
  advance_cursor ents ds r st = (st', Next) ->
  exists m, py_last (messages r) = Some m /\ offset_id (req st') = id m.
Proof.
  unfold advance_cursor.
  destruct (py_last (messages r)) as [m|]; [|discriminate].
  destruct (py_last ds) as [d|]; [|discriminate].
  destruct (ents !! _) as [e|]; [|discriminate].
  simpl. destruct (_ =? _); [discriminate|].
  intros [= <-]. exists m. split; reflexivity.
Qed.

Lemma loop_body_stuck lim ign st m :
  py_last (messages (next_response lim st)) = Some m ->
  id m = offset_id (req st) ->
  snd (loop_body lim ign st) <> Next.
Proof.
  intros Hm Hid. rewrite loop_body_eq. simpl.
  pose proof (after_page_frame lim ign st) as (Hr & _).
  destruct (after_page lim ign st) as [st3 [e|]]; simpl in *; [discriminate|].
  destruct (page_ends _ _ _); simpl; [discriminate|].
  apply (advance_cursor_stuck _ _ _ _ m Hm). rewrite Hr. exact Hid.
Qed.

Lemma loop_body_next lim ign st st' :
  loop_body lim ign st = (st', Next) ->
  exists m, py_last (messages (next_response lim st)) = Some m /\
            offset_id (req st') = id m.
Proof.
  rewrite loop_body_eq. simpl.
  destruct (after_page lim ign st) as [st3 [e|]]; [discriminate|].
  destruct (page_ends _ _ _); [discriminate|].
  apply advance_cursor_next.
Qed.

(** A service that answers every request with the same page is asked
    at most twice. *)
Lemma repeating_page_two_fetches lim ign r0 fuel st :
  (forall n q, rpc n q = r0) ->
  (length (sent (fst (while_loop fuel lim ign st)))
     <= length (sent st) + 2)%nat /\
  ((2 <= fuel)%nat -> snd (while_loop fuel lim ign st) <> Running).
Proof.
  intros Hc.
  destruct fuel as [|fuel].
  { simpl. destruct (lt_limit (Z.of_nat (size (seen st))) lim); simpl;
      split; lia. }
  cbn [while_loop].
  destruct (lt_limit (Z.of_nat (size (seen st))) lim) eqn:G;
    [|simpl; split; [lia|discriminate]].
  pose proof (loop_body_sent lim ign st) as Hs.
  destruct (loop_body lim ign st) as [st1 [| |e]] eqn:B; simpl in Hs;
    try (simpl; rewrite Hs, length_app; simpl; split; [lia|discriminate]).
  destruct (loop_body_next lim ign st st1 B) as (m & Hm & Hid).
  destruct fuel as [|fuel].
  { simpl. destruct (lt_limit (Z.of_nat (size (seen st1))) lim); simpl;
      rewrite Hs, length_app; simpl; split; lia. }
  destruct (lt_limit (Z.of_nat (size (seen st1))) lim) eqn:G1.
  - assert (Hstuck : snd (loop_body lim ign st1) <> Next).
    { apply (loop_body_stuck lim ign st1 m); [|symmetry; exact Hid].
      unfold next_response in *. rewrite Hc. rewrite Hc in Hm. exact Hm. }
    rewrite (while_loop_last_pass lim ign fuel st1 G1 Hstuck). simpl.
    rewrite loop_body_sent, Hs, !length_app. simpl. split; [lia|].
    intros _. destruct (snd (loop_body lim ign st1)); discriminate.
  - cbn [while_loop]. rewrite G1. simpl. rewrite Hs, length_app. simpl.
    split; [lia|discriminate].
Qed.

(** C4: when the id of the last message of a fetched page equals the
    [offset_id] the request already had, the pass does not go on to
    another pass: the run ends after that request, for any fuel. So a
    service that keeps answering with the same page is asked at most
    twice, and the run ends. *)
Theorem stuck_cursor_stops lim ign fuel st m :
  lt_limit (Z.of_nat (size (seen st))) lim = true ->
  py_last (messages (next_response lim st)) = Some m ->
  id m = offset_id (req st) ->
  snd (loop_body lim ign st) <> Next /\
  sent (fst (while_loop (S fuel) lim ign st)) =
    sent st ++ [next_request lim st] /\
  snd (while_loop (S fuel) lim ign st) <> Running /\
  (forall r0 fuel' st0,
     (forall n q, rpc n q = r0) ->
     (length (sent (fst (while_loop fuel' lim ign st0)))
        <= length (sent st0) + 2)%nat /\
     ((2 <= fuel')%nat -> snd (while_loop fuel' lim ign st0) <> Running)).
Proof.
  intros G Hm Hid.
  pose proof (loop_body_stuck lim ign st m Hm Hid) as Hn.
  split; [exact Hn|].
  rewrite (while_loop_last_pass lim ign fuel st G Hn). simpl.
  split; [apply loop_body_sent|]. split.
  - destruct (snd (loop_body lim ign st)); discriminate.
  - intros r0 fuel' st0 Hc. apply (repeating_page_two_fetches lim ign r0), Hc.
Qed.

(** A run that has ended gives the same result with more fuel. *)
Lemma while_loop_more_fuel lim ign fuel : forall st fuel',
  snd (while_loop fuel lim ign st) <> Running ->
  (fuel <= fuel')%nat ->
  while_loop fuel' lim ign st = while_loop fuel lim ign st.
Proof.
  induction fuel as [|fuel IH]; intros st fuel' Hr Hle.
  - simpl in *.
    destruct (lt_limit (Z.of_nat (size (seen st))) lim) eqn:G;
      [contradiction|].
    destruct fuel'; simpl; rewrite G; reflexivity.
  - destruct fuel' as [|fuel']; [lia|].
    cbn [while_loop] in *.
    destruct (lt_limit (Z.of_nat (size (seen st))) lim); [|reflexivity].
    destruct (loop_body lim ign st) as [st1 [| |e]]; try reflexivity.
    apply IH; [exact Hr | lia].
Qed.

(** * Further properties of the enumeration *)

#[local] Set Warnings "-clear-no-such-hyp".

(** ** A proof rule for the loop *)

(** [P] holds at the head of every pass; [Q] is what is then known of
    the state and status of the run, however it stands. *)
Lemma while_loop_rule lim ign (P : State -> Prop) (Q : State -> Status -> Prop) :
  (forall st, P st -> Q st Running) ->
  (forall st, P st ->
     lt_limit (Z.of_nat (size (seen st))) lim = false -> Q st Returned) ->
  (forall st, P st ->
     lt_limit (Z.of_nat (size (seen st))) lim = true ->
     match loop_body lim ign st with
     | (st', Next) => P st'
     | (st', Break) => Q st' Returned
     | (st', Raise e) => Q st' (Raised e)
     end) ->
  forall fuel st, P st ->
    Q (fst (while_loop fuel lim ign st)) (snd (while_loop fuel lim ign st)).
Proof.
  intros Hrun Hret Hpass. induction fuel as [|fuel IH]; intros st Hst.
  - simpl. destruct (lt_limit (Z.of_nat (size (seen st))) lim) eqn:G; simpl; auto.
  - cbn [while_loop].
    destruct (lt_limit (Z.of_nat (size (seen st))) lim) eqn:G; simpl; auto.
    specialize (Hpass st Hst G).
    destruct (loop_body lim ign st) as [st' [| |e]]; simpl; auto.
Qed.

(** ** The request after a pass *)

(** The request object after a pass that goes on: its cursor is read
    off the page just fetched, pinned dialogs are excluded from now on,
    and the new [offset_id] differs from the one just sent. *)
Lemma loop_body_next_req lim ign st st' :
  loop_body lim ign st = (st', Next) ->
  let r := next_response lim st in
  exists m d e,
    py_last (messages r) = Some m /\
    py_last (page_dialogs lim r) = Some d /\
    build_entities r !! get_peer_id (peer d) = Some e /\
    id m <> offset_id (req st) /\
    req st' = mkRequest (Some (date m)) (id m) (inr e)
                        (page_size lim (Z.of_nat (size (seen st))))
                        (hash (req st)) true.
Proof.
  rewrite loop_body_eq. simpl.
  pose proof (after_page_frame lim ign st) as (Hr & _).
  destruct (after_page lim ign st) as [st3 [e|]]; simpl in *; [discriminate|].
  destruct (page_ends _ _ _); [discriminate|].
  unfold advance_cursor.
  destruct (py_last (messages (next_response lim st))) as [m|] eqn:Em;
    [|discriminate].
  destruct (py_last (page_dialogs lim (next_response lim st))) as [d|] eqn:Ed;
    [|discriminate].
  destruct (build_entities (next_response lim st) !! get_peer_id (peer d))
    as [e|] eqn:Ee; [|discriminate].
  simpl. rewrite Hr. simpl.
  destruct (offset_id (req st) =? id m) eqn:E; [discriminate|].
  intros [= <-]. exists m, d, e. apply Z.eqb_neq in E.
  split; [reflexivity|]. split; [reflexivity|]. split; [exact Ee|].
  split; [intros Hm; apply E; symmetry; exact Hm | reflexivity].
Qed.

(** Whatever a pass does, the [hash] of the request stays as it was. *)
Lemma loop_body_hash lim ign st :
  hash (req (fst (loop_body lim ign st))) = hash (req st).
Proof.
  rewrite loop_body_eq. simpl.
  pose proof (after_page_frame lim ign st) as (Hr & _).
  destruct (after_page lim ign st) as [st3 [e|]]; simpl in *;
    [rewrite Hr; reflexivity|].
  destruct (page_ends _ _ _); simpl; [rewrite Hr; reflexivity|].
  unfold advance_cursor.
  destruct (py_last (messages _)) as [m|]; simpl; [|rewrite Hr; reflexivity].
  destruct (py_last (page_dialogs _ _)) as [d|]; simpl; [|rewrite Hr; reflexivity].
  destruct (_ !! _) as [e|]; simpl; [|rewrite Hr; reflexivity].
  rewrite Hr. simpl. destruct (_ =? _); simpl; reflexivity.
Qed.

(** ** The requests of a run *)

(** A request with [hash] 0 that asks for between 1 and 100 dialogs. *)
Definition well_sized (q : Request) : Prop := hash q = 0 /\ 1 <= limit q <= 100.

(** X1: every request of a run, of the loop or of the probe of a call with
    limit 0, has [hash] 0 and asks for between 1 and 100 dialogs. *)
Theorem sent_requests_well_sized fuel lim od oid op ign t c :
  Forall well_sized (sent (fst (iter_dialogs fuel lim od oid op ign t c))).
Proof.
  unfold iter_dialogs. destruct (limit_is_zero lim).
  - destruct t; simpl; [|constructor].
    repeat constructor; simpl; lia.
  - apply (while_loop_rule lim ign
             (fun st => Forall well_sized (sent st) /\ hash (req st) = 0)
             (fun st _ => Forall well_sized (sent st))).
    + intros st H. apply H.
    + intros st H _. apply H.
    + intros st (Hs & Hh) G.
      pose proof (loop_body_sent lim ign st) as Hsent.
      pose proof (loop_body_hash lim ign st) as Hhash.
      assert (Hall : Forall well_sized (sent (fst (loop_body lim ign st)))).
      { rewrite Hsent. apply Forall_app. split; [exact Hs|].
        constructor; [|constructor]. split; [exact Hh|]. simpl.
        apply (page_size_bounds lim _ G (Zle_0_nat _)). }
      destruct (loop_body lim ign st) as [st' [| |e]]; simpl in *; auto.
      split; [exact Hall | congruence].
    + simpl. split; [constructor | reflexivity].
Qed.

(** Two requests carry the same cursor. *)
Definition same_cursor (q q' : Request) : Prop :=
  offset_date q = offset_date q' /\ offset_id q = offset_id q' /\
  offset_peer q = offset_peer q' /\ exclude_pinned q = exclude_pinned q'.

(** The cursor of [q'] is read off the answer to [q], the [i]-th
    request: date and id of its last message, the entity of its last
    dialog walked, pinned dialogs excluded, and an [offset_id] other
    than the one of [q]. *)
Definition follows (lim : Limit) (i : nat) (q q' : Request) : Prop :=
  exists m d e,
    py_last (messages (rpc i q)) = Some m /\
    py_last (page_dialogs lim (rpc i q)) = Some d /\
    build_entities (rpc i q) !! get_peer_id (peer d) = Some e /\
    offset_date q' = Some (date m) /\ offset_id q' = id m /\
    offset_peer q' = inr e /\ exclude_pinned q' = true /\
    offset_id q' <> offset_id q.

Definition trace_ok (lim : Limit) (q0 : Request) (st : State) : Prop :=
  (forall q, sent st !! 0%nat = Some q -> same_cursor q q0) /\
  (forall i q q', sent st !! i = Some q -> sent st !! S i = Some q' ->
                  follows lim i q q').

Definition trace_head (lim : Limit) (q0 : Request) (st : State) : Prop :=
  trace_ok lim q0 st /\
  (sent st = [] -> same_cursor (req st) q0) /\
  (forall n q, sent st !! n = Some q -> length (sent st) = S n ->
               follows lim n q (req st)).

Lemma trace_ok_pass lim ign q0 st :
  trace_head lim q0 st -> trace_ok lim q0 (fst (loop_body lim ign st)).
Proof.
  intros ((Hfirst & Hpairs) & Hnil & Hlast).
  unfold trace_ok. rewrite loop_body_sent. split.
  - intros q. destruct (sent st) as [|q1 l] eqn:E; simpl.
    + intros [= <-]. apply (Hnil eq_refl).
    + intros [= <-]. apply Hfirst. reflexivity.
  - intros i q q' Hq Hq'.
    destruct (decide (S i < length (sent st))%nat) as [Hlt|Hge].
    + rewrite lookup_app_l in Hq; [|lia]. rewrite lookup_app_l in Hq'; [|lia].
      eapply Hpairs; eassumption.
    + assert (Hi : (i < length (sent st))%nat).
      { apply lookup_lt_Some in Hq'. rewrite length_app in Hq'. simpl in Hq'. lia. }
      rewrite lookup_app_l in Hq; [|lia].
      rewrite lookup_app_r in Hq'; [|lia].
      replace (S i - length (sent st))%nat with 0%nat in Hq' by lia.
      injection Hq' as <-.
      destruct (Hlast i q Hq ltac:(lia)) as (m & d & e & H).
      exists m, d, e. exact H.
Qed.

Lemma trace_head_pass lim ign q0 st st' :
  trace_head lim q0 st -> loop_body lim ign st = (st', Next) ->
  trace_head lim q0 st'.
Proof.
  intros Hh Hb.
  pose proof (trace_ok_pass lim ign q0 st Hh) as Hok.
  pose proof (loop_body_sent lim ign st) as Hs.
  destruct (loop_body_next_req lim ign st st' Hb)
    as (m & d & e & Hm & Hd & He & Hne & Hreq).
  rewrite Hb in Hok, Hs. simpl in Hok, Hs.
  split; [exact Hok|]. split.
  - rewrite Hs. intros E. destruct (sent st); discriminate.
  - intros n q Hq Hlen. rewrite Hs in Hq, Hlen.
    rewrite length_app in Hlen. simpl in Hlen.
    rewrite lookup_app_r in Hq; [|lia].
    replace (n - length (sent st))%nat with 0%nat in Hq by lia.
    injection Hq as <-.
    replace n with (length (sent st)) by lia.
    exists m, d, e. rewrite Hreq. simpl.
    unfold next_response in Hm, Hd, He. auto 10.
Qed.

Lemma iter_dialogs_trace fuel lim od oid op ign t c :
  trace_ok lim (mkRequest od oid (inl op) 0 0 false)
           (fst (iter_dialogs fuel lim od oid op ign t c)).
Proof.
  unfold iter_dialogs. destruct (limit_is_zero lim).
  - destruct t; simpl; split; simpl.
    + intros q [= <-]. repeat split.
    + intros i q q' Hq Hq'. destruct i; discriminate.
    + discriminate.
    + discriminate.
  - apply (while_loop_rule lim ign
             (trace_head lim (mkRequest od oid (inl op) 0 0 false))
             (fun st _ => trace_ok lim (mkRequest od oid (inl op) 0 0 false) st)).
    + intros st H. apply H.
    + intros st H _. apply H.
    + intros st H G.
      pose proof (trace_ok_pass lim ign _ st H) as Hok.
      destruct (loop_body lim ign st) as [st' [| |e]] eqn:Hb; simpl in *; auto.
      apply (trace_head_pass lim ign _ st st' H Hb).
    + split; [split|split]; simpl; try discriminate.
      intros _. repeat split.
Qed.

(** X2: the first request of a run carries the offsets of the caller and
    does not exclude pinned dialogs; every later request excludes
    them. *)
Theorem first_request_keeps_offsets fuel lim od oid op ign t c :
  let st := fst (iter_dialogs fuel lim od oid op ign t c) in
  (forall q, sent st !! 0%nat = Some q ->
     offset_date q = od /\ offset_id q = oid /\ offset_peer q = inl op /\
     exclude_pinned q = false) /\
  (forall i q, sent st !! S i = Some q -> exclude_pinned q = true).
Proof.
  destruct (iter_dialogs_trace fuel lim od oid op ign t c) as (Hfirst & Hpairs).
  split.
  - intros q Hq. apply (Hfirst q Hq).
  - intros i q Hq.
    destruct (lookup_lt_is_Some_2
                (sent (fst (iter_dialogs fuel lim od oid op ign t c))) i)
      as (q1 & Hq1); [apply lookup_lt_Some in Hq; lia|].
    destruct (Hpairs i q1 q Hq1 Hq) as (m & d & e & H). apply H.
Qed.

(** X3: the cursor of every request after the first is read off the answer
    to the request before it: the date and id of the last message of
    that page and the entity of its last dialog walked; and its
    [offset_id] is never the one of the request before it. *)
Theorem cursor_follows_pages fuel lim od oid op ign t c i q q' :
  sent (fst (iter_dialogs fuel lim od oid op ign t c)) !! i = Some q ->
  sent (fst (iter_dialogs fuel lim od oid op ign t c)) !! S i = Some q' ->
  exists m d e,
    py_last (messages (rpc i q)) = Some m /\
    py_last (page_dialogs lim (rpc i q)) = Some d /\
    build_entities (rpc i q) !! get_peer_id (peer d) = Some e /\
    offset_date q' = Some (date m) /\ offset_id q' = id m /\
    offset_peer q' = inr e /\ exclude_pinned q' = true /\
    offset_id q' <> offset_id q.
Proof.
  intros Hq Hq'.
  destruct (iter_dialogs_trace fuel lim od oid op ign t c) as (_ & Hpairs).
  apply (Hpairs i q q' Hq Hq').
Qed.

(** ** What a run only adds to *)

Definition dialog_peer_id (d : DialogSummary) : Z := get_peer_id (peer d).

(** [st'] comes after [st]: records and requests were only appended,
    the dedup set only grew, no key left the registry, and a registry
    entry that is new or changed holds a nonzero [pts] under a peer
    identity that entered the dedup set in between. *)
Definition extends (st st' : State) : Prop :=
  yielded st `prefix_of` yielded st' /\
  sent st `prefix_of` sent st' /\
  seen st ⊆ seen st' /\
  (forall k, is_Some (channel_pts st !! k) -> is_Some (channel_pts st' !! k)) /\
  (forall k v, channel_pts st' !! k = Some v ->
     channel_pts st !! k = Some v \/ (v <> 0 /\ k ∈ seen st' /\ k ∉ seen st)).

Lemma extends_refl st : extends st st.
Proof. repeat split; auto. Qed.

Lemma extends_trans st1 st2 st3 :
  extends st1 st2 -> extends st2 st3 -> extends st1 st3.
Proof.
  intros (Hy & Hs & Hn & Hd & Hc) (Hy' & Hs' & Hn' & Hd' & Hc').
  split; [etrans; eassumption|]. split; [etrans; eassumption|].
  split; [set_solver|]. split; [auto|].
  intros k v Hk. destruct (Hc' k v Hk) as [H2|(Hv & Hin & Hout)].
  - destruct (Hc k v H2) as [H1|(Hv & Hin & Hout)]; [left; exact H1|].
    right. split; [exact Hv|]. split; [set_solver | exact Hout].
  - right. split; [exact Hv|]. split; [exact Hin | set_solver].
Qed.

(** The three ways [process_dialog] can go. *)
Lemma process_dialog_cases ign ents ms st d :
  let pid := dialog_peer_id d in
  ((pid ∈ seen st) /\ process_dialog ign ents ms st d = (st, None)) \/
  ((pid ∉ seen st) /\ ents !! pid = None /\
   process_dialog ign ents ms st d
     = (set_seen ({[pid]} ∪ seen st) st, Some (KeyError pid))) \/
  ((pid ∉ seen st) /\ exists e, ents !! pid = Some e /\
   let cd := mkDialog d e (ms !! top_message d) pid in
   let st1 := set_seen ({[pid]} ∪ seen st) st in
   let st2 := match pts_truthy (pts d) with
              | Some p => set_channel_pts (<[pid := p]> (channel_pts st1)) st1
              | None => st1
              end in
   process_dialog ign ents ms st d =
     (if negb ign || not_migrated cd then yield_ cd st2 else st2, None)).
Proof.
  intros pid. destruct (decide (pid ∈ seen st)) as [Hin|Hout].
  - left. split; [exact Hin|]. unfold process_dialog.
    destruct (decide _); [reflexivity | contradiction].
  - right. destruct (ents !! pid) as [e|] eqn:He.
    + right. split; [exact Hout|]. exists e. split; [reflexivity|].
      apply (process_dialog_unseen ign ents ms st d e Hout He).
    + left. split; [exact Hout|]. split; [reflexivity|].
      unfold process_dialog, Dialog_init.
      destruct (decide _); [contradiction|].
      fold (dialog_peer_id d). fold pid. rewrite He. reflexivity.
Qed.

Lemma pts_truthy_nonzero p v : pts_truthy p = Some v -> v <> 0.
Proof.
  destruct p as [w|]; simpl; [|discriminate].
  destruct (w =? 0) eqn:E; [discriminate|].
  intros [= <-]. apply Z.eqb_neq, E.
Qed.

Lemma process_dialog_extends ign ents ms st d :
  extends st (fst (process_dialog ign ents ms st d)).
Proof.
  destruct (process_dialog_cases ign ents ms st d)
    as [(_ & ->)|[(Hout & _ & ->)|(Hout & e & _ & ->)]]; simpl.
  - apply extends_refl.
  - repeat split; simpl; auto. set_solver.
  - set (pid := dialog_peer_id d) in *.
    assert (Hreg : forall k v,
      channel_pts (match pts_truthy (pts d) with
                   | Some p => set_channel_pts (<[pid := p]> (channel_pts st))
                                 (set_seen ({[pid]} ∪ seen st) st)
                   | None => set_seen ({[pid]} ∪ seen st) st
                   end) !! k = Some v ->
      channel_pts st !! k = Some v \/
      (v <> 0 /\ k ∈ {[pid]} ∪ seen st /\ k ∉ seen st)).
    { intros k v. destruct (pts_truthy (pts d)) as [p|] eqn:Ep; simpl; [|auto].
      rewrite lookup_insert. case_decide as Hk; [|auto].
      intros [= <-]. subst k. right.
      split; [apply (pts_truthy_nonzero _ _ Ep)|]. split; [set_solver|exact Hout]. }
    assert (Hdom : forall k, is_Some (channel_pts st !! k) ->
      is_Some (channel_pts (match pts_truthy (pts d) with
                   | Some p => set_channel_pts (<[pid := p]> (channel_pts st))
                                 (set_seen ({[pid]} ∪ seen st) st)
                   | None => set_seen ({[pid]} ∪ seen st) st
                   end) !! k)).
    { intros k Hk. destruct (pts_truthy (pts d)) as [p|]; simpl; [|exact Hk].
      rewrite lookup_insert. case_decide; [eauto | exact Hk]. }
    destruct (negb ign || _); destruct (pts_truthy (pts d)) as [p|];
      simpl in *; (split; [|split; [|split; [|split]]]); simpl;
      try reflexivity; try (apply prefix_app_r; reflexivity);
      try set_solver; auto.
Qed.

Lemma for_dialogs_extends ign ents ms ds : forall st,
  extends st (fst (for_dialogs ign ents ms ds st)).
Proof.
  induction ds as [|d ds IH]; intros st; simpl; [apply extends_refl|].
  pose proof (process_dialog_extends ign ents ms st d) as Hp.
  destruct (process_dialog ign ents ms st d) as [st1 [e|]]; simpl in *;
    [exact Hp|].
  eapply extends_trans; [exact Hp | apply IH].
Qed.

Lemma loop_body_extends lim ign st :
  extends st (fst (loop_body lim ign st)).
Proof.
  assert (H0 : extends st (at_page lim st)).
  { repeat split; simpl; auto. apply prefix_app_r. reflexivity. }
  assert (H1 : extends st (fst (after_page lim ign st))).
  { eapply extends_trans; [exact H0|]. unfold after_page. apply for_dialogs_extends. }
  rewrite loop_body_eq. simpl.
  destruct (after_page lim ign st) as [st3 [e|]]; simpl in *; [exact H1|].
  destruct (page_ends _ _ _); simpl; [exact H1|].
  pose proof (advance_cursor_frame (build_entities (next_response lim st))
    (page_dialogs lim (next_response lim st)) (next_response lim st) st3) as Ha.
  simpl in Ha. destruct Ha as (Hs & _ & Hc & Hy & Hsent).
  unfold extends. rewrite Hs, Hc, Hy, Hsent. exact H1.
Qed.

Lemma while_loop_extends lim ign fuel : forall st,
  extends st (fst (while_loop fuel lim ign st)).
Proof.
  induction fuel as [|fuel IH]; intros st; simpl.
  - destruct (lt_limit (Z.of_nat (size (seen st))) lim); apply extends_refl.
  - destruct (lt_limit (Z.of_nat (size (seen st))) lim); [|apply extends_refl].
    pose proof (loop_body_extends lim ign st) as Hb.
    destruct (loop_body lim ign st) as [st' [| |e]]; simpl in *; auto.
    eapply extends_trans; [exact Hb | apply IH].
Qed.

(** More fuel continues the run from where less fuel left it. *)
Lemma while_loop_resume lim ign k fuel : forall st,
  while_loop (fuel + k) lim ign st =
  match while_loop fuel lim ign st with
  | (st1, Running) => while_loop k lim ign st1
  | res => res
  end.
Proof.
  induction fuel as [|fuel IH]; intros st.
  - simpl. destruct (lt_limit (Z.of_nat (size (seen st))) lim) eqn:G;
      [reflexivity|].
    destruct k; simpl; rewrite G; reflexivity.
  - change (S fuel + k)%nat with (S (fuel + k)). cbn [while_loop].
    destruct (lt_limit (Z.of_nat (size (seen st))) lim); [|reflexivity].
    destruct (loop_body lim ign st) as [st' [| |e]]; try reflexivity.
    apply IH.
Qed.

(** X8: the registry of the client after a run: no key of the registry
    passed in is lost, and an entry that is new or changed holds a
    nonzero [pts] under the peer identity of a dialog in the dedup set
    of this run. *)
Theorem registry_only_gains fuel lim od oid op ign t c :
  let st := fst (iter_dialogs fuel lim od oid op ign t c) in
  (forall k, is_Some (c !! k) -> is_Some (channel_pts st !! k)) /\
  (forall k v, channel_pts st !! k = Some v ->
     c !! k = Some v \/ (v <> 0 /\ k ∈ seen st)).
Proof.
  assert (H : extends (start (mkRequest od oid (inl op) 0 0 false) t c)
                      (fst (iter_dialogs fuel lim od oid op ign t c))).
  { unfold iter_dialogs. destruct (limit_is_zero lim).
    - destruct t; simpl; repeat split; simpl; auto. apply prefix_nil.
    - apply while_loop_extends. }
  destruct H as (_ & _ & _ & Hd & Hc). simpl in *. split; [exact Hd|].
  intros k v Hk. destruct (Hc k v Hk) as [H|(H1 & H2 & _)]; auto.
Qed.

(** X9: running a generator further only appends: what it has yielded and
    sent with less fuel is a prefix of what it has yielded and sent
    with more, and its dedup set only grows. *)
Theorem run_only_appends fuel k lim od oid op ign t c :
  let st := fst (iter_dialogs fuel lim od oid op ign t c) in
  let st' := fst (iter_dialogs (fuel + k) lim od oid op ign t c) in
  yielded st `prefix_of` yielded st' /\
  sent st `prefix_of` sent st' /\
  seen st ⊆ seen st'.
Proof.
  assert (H : extends (fst (iter_dialogs fuel lim od oid op ign t c))
                      (fst (iter_dialogs (fuel + k) lim od oid op ign t c))).
  { unfold iter_dialogs. destruct (limit_is_zero lim).
    - destruct t; apply extends_refl.
    - rewrite while_loop_resume.
      destruct (while_loop fuel lim ign _) as [st1 [| |e]]; simpl;
        try apply extends_refl.
      apply while_loop_extends. }
  destruct H as (Hy & Hs & Hn & _). auto.
Qed.

(** ** The dialogs of one page *)

Lemma for_dialogs_seen ign ents ms ds : forall st,
  seen (fst (for_dialogs ign ents ms ds st))
    ⊆ seen st ∪ list_to_set (map dialog_peer_id ds) /\
  (snd (for_dialogs ign ents ms ds st) = None ->
   seen (fst (for_dialogs ign ents ms ds st))
     = seen st ∪ list_to_set (map dialog_peer_id ds)) /\
  (size (seen (fst (for_dialogs ign ents ms ds st)))
     <= size (seen st) + length ds)%nat.
Proof.
  induction ds as [|d ds IH]; intros st; simpl.
  - split; [set_solver|]. split; [intros _; set_solver | lia].
  - assert (Hstep : seen (fst (process_dialog ign ents ms st d))
                    = {[dialog_peer_id d]} ∪ seen st /\
                    (size (seen (fst (process_dialog ign ents ms st d)))
                       <= S (size (seen st)))%nat).
    { destruct (process_dialog_cases ign ents ms st d)
        as [(Hin & ->)|[(Hout & _ & ->)|(Hout & e & _ & ->)]]; simpl.
      - split; [set_solver | lia].
      - split; [reflexivity|].
        rewrite size_union by set_solver. rewrite size_singleton. lia.
      - assert (Hz : (size ({[dialog_peer_id d]} ∪ seen st) <= S (size (seen st)))%nat)
          by (rewrite size_union by set_solver; rewrite size_singleton; lia).
        destruct (negb ign || _), (pts_truthy (pts d)); simpl; auto. }
    destruct Hstep as (Hs1 & Hz1).
    destruct (process_dialog ign ents ms st d) as [st1 [e|]]; simpl in *.
    + split; [set_solver|]. split; [discriminate | lia].
    + destruct (IH st1) as (Hsub & Heq & Hsz). rewrite Hs1 in Hsub, Heq.
      split; [set_solver|]. split; [|lia].
      intros Hok. rewrite (Heq Hok). set_solver.
Qed.

Lemma for_dialogs_order ign ents ms ds : forall st,
  exists new,
    yielded (fst (for_dialogs ign ents ms ds st)) = yielded st ++ new /\
    map record_peer_id new `sublist_of` map dialog_peer_id ds /\
    Forall (fun cd => (record_peer_id cd ∉ seen st) /\ (dialog cd ∈ ds)) new.
Proof.
  induction ds as [|d ds IH]; intros st; simpl.
  - exists []. rewrite app_nil_r. repeat constructor.
  - pose proof (process_dialog_extends ign ents ms st d) as (_ & _ & Hmono & _).
    destruct (process_dialog_cases ign ents ms st d)
      as [(Hin & Hp)|[(Hout & _ & Hp)|(Hout & e & _ & Hp)]];
      rewrite Hp in Hmono |- *; simpl in Hmono |- *.
    + destruct (IH st) as (new & Hy & Hsub & Hall). exists new.
      split; [exact Hy|]. split; [apply sublist_cons, Hsub|].
      eapply Forall_impl; [exact Hall|]. simpl. intros cd (H1 & H2).
      split; [exact H1 | right; exact H2].
    + exists []. rewrite app_nil_r. split; [reflexivity|].
      split; [apply sublist_nil_l | constructor].
    + set (cd := mkDialog d e (ms !! top_message d) (dialog_peer_id d)) in *.
      match goal with
      | |- context [for_dialogs ign ents ms ds ?s] =>
          destruct (IH s) as (new & Hy & Hsub & Hall)
      end.
      assert (Hall' : Forall (fun c => (record_peer_id c ∉ seen st) /\
                                       (dialog c ∈ d :: ds)) new).
      { eapply Forall_impl; [exact Hall|]. simpl. intros c (H1 & H2).
        split; [|right; exact H2]. intros Hc. apply H1. apply Hmono, Hc. }
      destruct (negb ign || not_migrated cd); simpl in *.
      * exists (cd :: new). rewrite Hy.
        destruct (pts_truthy (pts d)); simpl; rewrite <- app_assoc; simpl.
        all: split; [reflexivity|]; split; [apply sublist_skip, Hsub|];
          constructor; [split; [exact Hout | left] | exact Hall'].
      * exists new. rewrite Hy.
        destruct (pts_truthy (pts d)); simpl.
        all: split; [reflexivity|]; split; [apply sublist_cons, Hsub | exact Hall'].
Qed.

(** Without [ignore_migrated], a page walked without an exception
    yields one record for each peer identity it adds to the dedup set. *)
Lemma for_dialogs_all_yielded ents ms ds : forall st,
  snd (for_dialogs false ents ms ds st) = None ->
  (length (yielded (fst (for_dialogs false ents ms ds st))) + size (seen st)
   = length (yielded st) + size (seen (fst (for_dialogs false ents ms ds st))))%nat.
Proof.
  induction ds as [|d ds IH]; intros st; simpl; [lia|].
  destruct (process_dialog_cases false ents ms st d)
    as [(Hin & ->)|[(Hout & _ & ->)|(Hout & e & _ & ->)]]; simpl.
  - apply IH.
  - discriminate.
  - intros Hok.
    match type of Hok with
    | snd (for_dialogs false ents ms ds ?s) = None =>
        pose proof (IH s Hok) as H; set (s1 := s) in *
    end.
    assert (Hy : length (yielded s1) = S (length (yielded st)))
      by (subst s1; destruct (pts_truthy (pts d)); simpl;
          rewrite length_app; simpl; lia).
    assert (Hz : size (seen s1) = S (size (seen st))).
    { subst s1. destruct (pts_truthy (pts d)); simpl;
        rewrite size_union by set_solver; rewrite size_singleton; lia. }
    lia.
Qed.

(** A pass that does not raise has walked its page without an
    exception, and leaves the dedup set and the records as the [for]
    loop left them. *)
Lemma loop_body_after_page lim ign st :
  seen (fst (loop_body lim ign st)) = seen (fst (after_page lim ign st)) /\
  yielded (fst (loop_body lim ign st)) = yielded (fst (after_page lim ign st)) /\
  ((forall e, snd (loop_body lim ign st) <> Raise e) ->
   snd (after_page lim ign st) = None).
Proof.
  rewrite loop_body_eq. simpl.
  destruct (after_page lim ign st) as [st3 [e|]]; simpl.
  - split; [reflexivity|]. split; [reflexivity|]. intros H. destruct (H e eq_refl).
  - destruct (page_ends _ _ _); simpl; [auto|].
    pose proof (advance_cursor_frame (build_entities (next_response lim st))
      (page_dialogs lim (next_response lim st)) (next_response lim st) st3) as Ha.
    simpl in Ha. destruct Ha as (Hs & _ & _ & Hy & _). auto.
Qed.

(** X6: in one pass the records are yielded in the order of the page, each
    for a dialog of the page whose peer identity was not in the dedup
    set before the pass. *)
Theorem pass_yields_in_page_order lim ign st :
  exists new,
    yielded (fst (loop_body lim ign st)) = yielded st ++ new /\
    map record_peer_id new
      `sublist_of` map dialog_peer_id (page_dialogs lim (next_response lim st)) /\
    Forall (fun cd => (record_peer_id cd ∉ seen st) /\
                      (dialog cd ∈ page_dialogs lim (next_response lim st))) new.
Proof.
  destruct (loop_body_after_page lim ign st) as (_ & -> & _).
  unfold after_page.
  apply (for_dialogs_order ign _ _ _ (at_page lim st)).
Qed.

(** X7: after a pass whose [for] loop met no exception, the dedup set is
    the one before the pass together with the peer identity of every
    dialog of the page walked. *)
Theorem pass_records_every_dialog lim ign st :
  snd (after_page lim ign st) = None ->
  seen (fst (loop_body lim ign st))
  = seen st ∪ list_to_set (map dialog_peer_id
                               (page_dialogs lim (next_response lim st))).
Proof.
  intros Hok. destruct (loop_body_after_page lim ign st) as (-> & _).
  unfold after_page in *.
  destruct (for_dialogs_seen ign (build_entities (next_response lim st))
              (build_messages (build_entities (next_response lim st))
                              (next_response lim st))
              (page_dialogs lim (next_response lim st)) (at_page lim st))
    as (_ & Heq & _).
  apply Heq, Hok.
Qed.

(** ** The limit as a bound *)

(** A page as walked is never longer than the page as returned, and
    never longer than a finite limit that is not negative. *)
Lemma page_dialogs_len (l : Z) (r : Response) :
  0 <= l ->
  len (page_dialogs (Fin l) r) <= len (dialogs r) /\
  len (page_dialogs (Fin l) r) <= l.
Proof.
  intros H0. unfold page_dialogs, gt_limit, py_slice_to.
  destruct (l <? len (dialogs r)) eqn:E.
  - apply Z.ltb_lt in E.
    destruct (l <? 0) eqn:E0; [apply Z.ltb_lt in E0; lia|].
    rewrite len_firstn by lia. lia.
  - apply Z.ltb_ge in E. lia.
Qed.

(** X4: when the service returns no more dialogs than asked for on every
    request that excludes pinned dialogs, a run with a finite limit
    that is not negative never yields more records than the limit:
    what the first page has too many is cut off. *)
Theorem at_most_limit_records fuel l od oid op ign t c :
  0 <= l ->
  (forall n q, exclude_pinned q = true -> 1 <= limit q ->
               len (dialogs (rpc n q)) <= limit q) ->
  len (yielded (fst (iter_dialogs fuel (Fin l) od oid op ign t c))) <= l /\
  Z.of_nat (size (seen (fst (iter_dialogs fuel (Fin l) od oid op ign t c)))) <= l.
Proof.
  intros H0 Hsvc.
  assert (Hseen : Z.of_nat (size (seen (fst (iter_dialogs fuel (Fin l) od oid op
                                                          ign t c)))) <= l).
  { unfold iter_dialogs. destruct (limit_is_zero (Fin l)).
    - destruct t; cbn [fst seen await start set_total]; rewrite size_empty; lia.
    - apply (while_loop_rule (Fin l) ign
               (fun st => Z.of_nat (size (seen st)) <= l /\
                          (seen st = ∅ \/ exclude_pinned (req st) = true))
               (fun st _ => Z.of_nat (size (seen st)) <= l)).
      + intros st H. apply H.
      + intros st H _. apply H.
      + intros st (Hz & Hcase) G.
        assert (Hz' : Z.of_nat (size (seen (fst (loop_body (Fin l) ign st)))) <= l).
        { destruct (loop_body_after_page (Fin l) ign st) as (-> & _).
          unfold after_page.
          destruct (for_dialogs_seen ign
                      (build_entities (next_response (Fin l) st))
                      (build_messages (build_entities (next_response (Fin l) st))
                                      (next_response (Fin l) st))
                      (page_dialogs (Fin l) (next_response (Fin l) st))
                      (at_page (Fin l) st)) as (_ & _ & Hsz).
          simpl in Hsz.
          destruct (page_dialogs_len l (next_response (Fin l) st) H0) as (Hraw & Hcut).
          unfold len in *.
          destruct Hcase as [He|Hx].
          - rewrite He, size_empty in Hsz. lia.
          - destruct (page_size_bounds (Fin l) _ G (Zle_0_nat (size (seen st))))
              as (Hp & _).
            pose proof (Hsvc (length (sent st)) (next_request (Fin l) st) Hx) as Hq.
            simpl in Hq, Hp. unfold next_response in *.
            unfold len in Hq. lia. }
        destruct (loop_body (Fin l) ign st) as [st' [| |e]] eqn:Hb; simpl in *; auto.
        split; [exact Hz'|]. right.
        destruct (loop_body_next_req (Fin l) ign st st' Hb)
          as (m & d & e & _ & _ & _ & _ & ->).
        reflexivity.
      + split; [cbn [seen start]; rewrite size_empty; lia | left; reflexivity]. }
  split; [|exact Hseen].
  destruct (iter_dialogs_inv fuel (Fin l) od oid op ign t c) as (_ & _ & Hlen).
  unfold len. lia.
Qed.

(** X5: without [ignore_migrated], as long as no exception is raised, the
    run has yielded exactly one record for each peer identity in the
    dedup set. *)
Theorem all_deduped_yielded fuel lim od oid op t c :
  (forall e, snd (iter_dialogs fuel lim od oid op false t c) <> Raised e) ->
  length (yielded (fst (iter_dialogs fuel lim od oid op false t c)))
  = size (seen (fst (iter_dialogs fuel lim od oid op false t c))).
Proof.
  unfold iter_dialogs. destruct (limit_is_zero lim).
  - destruct t; intros _; cbn [fst seen yielded await start set_total];
      rewrite size_empty; reflexivity.
  - apply (while_loop_rule lim false
             (fun st => length (yielded st) = size (seen st))
             (fun st s => (forall e, s <> Raised e) ->
                          length (yielded st) = size (seen st))).
    + intros st H _. exact H.
    + intros st H _ _. exact H.
    + intros st H G.
      destruct (loop_body_after_page lim false st) as (Hs & Hy & Hok).
      assert (Hgo : (forall e, snd (loop_body lim false st) <> Raise e) ->
                    length (yielded (fst (loop_body lim false st)))
                    = size (seen (fst (loop_body lim false st)))).
      { intros Hn. specialize (Hok Hn). rewrite Hs, Hy.
        unfold after_page in *.
        pose proof (for_dialogs_all_yielded _ _ _ _ Hok) as Hc.
        simpl in Hc. lia. }
      destruct (loop_body lim false st) as [st' [| |e]]; simpl in *.
      * apply Hgo. discriminate.
      * intros _. apply Hgo. discriminate.
      * intros Hn. destruct (Hn e eq_refl).
    + cbn [seen yielded start]. rewrite size_empty. reflexivity.
Qed.

(** ** The total handle does not steer the run *)

Lemma process_dialog_set_total t ign ents ms st d :
  process_dialog ign ents ms (set_total t st) d =
  (set_total t (fst (process_dialog ign ents ms st d)),
   snd (process_dialog ign ents ms st d)).
Proof.
  unfold process_dialog. simpl.
  destruct (decide _); [reflexivity|].
  destruct (Dialog_init d ents ms) as [e|cd]; [reflexivity|].
  destruct (pts_truthy _), (negb ign || not_migrated cd); reflexivity.
Qed.

Lemma for_dialogs_set_total t ign ents ms ds : forall st,
  for_dialogs ign ents ms ds (set_total t st) =
  (set_total t (fst (for_dialogs ign ents ms ds st)),
   snd (for_dialogs ign ents ms ds st)).
Proof.
  induction ds as [|d ds IH]; intros st; simpl; [reflexivity|].
  rewrite process_dialog_set_total.
  destruct (process_dialog ign ents ms st d) as [st1 [e|]]; simpl;
    [reflexivity | apply IH].
Qed.

Lemma advance_cursor_set_total t ents ds r st :
  advance_cursor ents ds r (set_total t st) =
  (set_total t (fst (advance_cursor ents ds r st)),
   snd (advance_cursor ents ds r st)).
Proof.
  unfold advance_cursor.
  destruct (py_last (messages r)) as [m|]; [|reflexivity].
  destruct (py_last ds) as [d|]; [|reflexivity].
  destruct (ents !! _) as [e|]; [|reflexivity].
  simpl. destruct (_ =? _); reflexivity.
Qed.

Lemma loop_body_forget lim ign st :
  loop_body lim ign (set_total None st) =
  (set_total None (fst (loop_body lim ign st)), snd (loop_body lim ign st)).
Proof.
  rewrite !loop_body_eq. simpl.
  assert (Hp : after_page lim ign (set_total None st) =
               (set_total None (fst (after_page lim ign st)),
                snd (after_page lim ign st))).
  { unfold after_page.
    change (next_response lim (set_total None st)) with (next_response lim st).
    change (at_page lim (set_total None st))
      with (set_total None (set_total None (at_page lim st))).
    rewrite for_dialogs_set_total.
    rewrite <- (for_dialogs_set_total None ign _ _ _ (at_page lim st)).
    rewrite for_dialogs_set_total. reflexivity. }
  rewrite Hp.
  change (next_response lim (set_total None st)) with (next_response lim st).
  destruct (after_page lim ign st) as [st3 [e|]]; simpl; [reflexivity|].
  destruct (page_ends _ _ _); [reflexivity|].
  apply advance_cursor_set_total.
Qed.

Lemma while_loop_forget lim ign fuel : forall st,
  while_loop fuel lim ign (set_total None st) =
  (set_total None (fst (while_loop fuel lim ign st)),
   snd (while_loop fuel lim ign st)).
Proof.
  induction fuel as [|fuel IH]; intros st; cbn [while_loop]; simpl.
  - destruct (lt_limit (Z.of_nat (size (seen st))) lim); reflexivity.
  - destruct (lt_limit (Z.of_nat (size (seen st))) lim); [|reflexivity].
    rewrite loop_body_forget.
    destruct (loop_body lim ign st) as [st' [| |e]]; simpl;
      [apply IH | reflexivity | reflexivity].
Qed.

(** X10: for a limit other than 0, passing a total handle changes nothing
    but the handle: the status, the records, the requests, the dedup
    set, the registry and the request object are those of the run
    without a handle, which leaves no total. *)
Theorem total_handle_is_passive fuel lim od oid op ign t c :
  limit_is_zero lim = false ->
  let with_handle := iter_dialogs fuel lim od oid op ign (Some t) c in
  let without := iter_dialogs fuel lim od oid op ign None c in
  snd with_handle = snd without /\
  yielded (fst with_handle) = yielded (fst without) /\
  sent (fst with_handle) = sent (fst without) /\
  seen (fst with_handle) = seen (fst without) /\
  channel_pts (fst with_handle) = channel_pts (fst without) /\
  req (fst with_handle) = req (fst without) /\
  total (fst without) = None.
Proof.
  intros Hz. unfold iter_dialogs. rewrite Hz. simpl.
  change (start (mkRequest od oid (inl op) 0 0 false) None c)
    with (set_total None (start (mkRequest od oid (inl op) 0 0 false) (Some t) c)).
  rewrite while_loop_forget. simpl. repeat split; reflexivity.
Qed.

(** ** The tables of a page *)

(** After inserting a list of items under their keys, one after the
    other, a key holds the last item of the list with that key, or
    what it held before when the list has none. *)
Lemma fold_insert_lookup {A B : Type} (key : A -> Z) (val : A -> B)
    (xs : list A) : forall (m : gmap Z B) (k : Z),
  fold_left (fun m x => <[key x := val x]> m) xs m !! k =
  match last (filter (fun x => key x = k) xs) with
  | Some x => Some (val x)
  | None => m !! k
  end.
Proof.
  induction xs as [|x xs IH]; intros m k; simpl; [reflexivity|].
  rewrite IH, filter_cons. case_decide as Hk.
  - destruct (filter (fun x0 => key x0 = k) xs) as [|y ys] eqn:E.
    + simpl. rewrite Hk. apply lookup_insert_eq.
    + change (last (x :: y :: ys)) with (last (y :: ys)).
      destruct (last (y :: ys)) eqn:El; [reflexivity|].
      apply last_None in El. discriminate.
  - destruct (last _); [reflexivity|]. apply lookup_insert_ne, Hk.
Qed.

(** X11: the entity table of a page holds, under a peer identity, the last
    of the users followed by the chats of the page with that identity,
    and nothing under an identity none of them has. *)
Theorem entity_table_last_wins (r : Response) (k : Z) :
  build_entities r !! k =
  last (filter (fun x => get_entity_id x = k) (users r ++ chats r)).
Proof.
  unfold build_entities.
  rewrite (fold_insert_lookup get_entity_id (fun x => x)).
  destruct (last _); [reflexivity | apply lookup_empty].
Qed.

(** X12: the message table of a page holds, under a message id, the last
    message of the page with that id, bound to the entity table it was
    built with. *)
Theorem message_table_last_wins (ents : gmap Z Entity) (r : Response) (k : Z) :
  build_messages ents r !! k =
  (fun m => mkBound m ents) <$> last (filter (fun m => id m = k) (messages r)).
Proof.
  unfold build_messages.
  rewrite (fold_insert_lookup id (fun m => mkBound m ents)).
  destruct (last _); [reflexivity | apply lookup_empty].
Qed.

(** ** A negative limit *)

(** X13: with a negative limit the generator returns at once: no request,
    no record, handle and registry untouched; and [get_dialogs] gives
    the empty list with total 0. *)
Theorem negative_limit_fetches_nothing fuel l od oid op ign t c :
  l < 0 ->
  iter_dialogs fuel (Fin l) od oid op ign t c
    = (start (mkRequest od oid (inl op) 0 0 false) t c, Returned) /\
  get_dialogs fuel (Fin l) od oid op ign c = (Returned, Some ([], 0)).
Proof.
  intros Hl.
  assert (Hz : limit_is_zero (Fin l) = false) by (apply Z.eqb_neq; lia).
  assert (Hi : forall t', iter_dialogs fuel (Fin l) od oid op ign t' c
                 = (start (mkRequest od oid (inl op) 0 0 false) t' c, Returned)).
  { intros t'. unfold iter_dialogs. rewrite Hz.
    assert (G : lt_limit (Z.of_nat (size (seen (start (mkRequest od oid (inl op)
                  0 0 false) t' c)))) (Fin l) = false).
    { cbn [seen start]. rewrite size_empty. apply Z.ltb_ge. lia. }
    destruct fuel; cbn [while_loop]; rewrite G; reflexivity. }
  split; [apply Hi|]. unfold get_dialogs. rewrite Hi. reflexivity.
Qed.

(** ** The page a pass walks, and the total it leaves *)

(** The page as walked, with lines 91-93 written out. *)
Lemma page_dialogs_walked lim (r : Response) :
  match lim with Inf => True | Fin l => 0 <= l end ->
  page_dialogs lim r =
  match lim with
  | Inf => dialogs r
  | Fin l => if l <? Z.of_nat (length (dialogs r))
             then firstn (Z.to_nat l) (dialogs r) else dialogs r
  end.
Proof.
  destruct lim as [|l]; intros Hl; unfold page_dialogs, gt_limit, len;
    [reflexivity|].
  destruct (l <? Z.of_nat (length (dialogs r))); [|reflexivity].
  unfold py_slice_to.
  destruct (l <? 0) eqn:E; [apply Z.ltb_lt in E; lia | reflexivity].
Qed.

(** C2, as the code has it: in a pass under a finite limit, a fetched
    page with more dialogs than the overall limit is cut to its first
    [limit] dialogs before any dialog is walked; a page with no more
    dialogs than the limit, and every page under an unbounded limit,
    is walked whole, also when it has more dialogs than the request
    asked for. What the pass yields and what it adds to the dedup set
    comes from the page as cut: the new records follow the cut page in
    order, and when the pass raises nothing the dedup set has grown by
    exactly the peer identities of the cut page. *)
Theorem overflowing_page_cut_to_limit lim ign st :
  match lim with Inf => True | Fin l => Z.of_nat (size (seen st)) < l end ->
  let q := mkRequest (offset_date (req st)) (offset_id (req st))
             (offset_peer (req st))
             (match lim with
              | Inf => 100
              | Fin l => Z.min (l - Z.of_nat (size (seen st))) 100
              end)
             (hash (req st)) (exclude_pinned (req st)) in
  let r := rpc (length (sent st)) q in
  let walked :=
    match lim with
    | Inf => dialogs r
    | Fin l => if l <? Z.of_nat (length (dialogs r))
               then firstn (Z.to_nat l) (dialogs r) else dialogs r
    end in
  let st' := fst (loop_body lim ign st) in
  sent st' = sent st ++ [q] /\
  (forall l, lim = Fin l -> l < Z.of_nat (length (dialogs r)) ->
             Z.of_nat (length walked) = l) /\
  (exists new,
     yielded st' = yielded st ++ new /\
     map record_peer_id new
       `sublist_of` map (fun d => get_peer_id (peer d)) walked /\
     Forall (fun cd => dialog cd ∈ walked) new) /\
  seen st' ⊆ seen st ∪ list_to_set (map (fun d => get_peer_id (peer d)) walked) /\
  ((forall e, snd (loop_body lim ign st) <> Raise e) ->
   seen st' = seen st ∪ list_to_set (map (fun d => get_peer_id (peer d)) walked)).
Proof.
  intros G q r walked st'.
  assert (Hq : next_request lim st = q) by (destruct lim; reflexivity).
  assert (Hr : next_response lim st = r)
    by (unfold next_response; rewrite Hq; reflexivity).
  assert (Hw : page_dialogs lim r = walked).
  { apply page_dialogs_walked. destruct lim; [exact I | lia]. }
  destruct (loop_body_after_page lim ign st) as (Hs & Hy & Hok).
  unfold after_page in Hs, Hy, Hok. rewrite Hr, Hw in Hs, Hy, Hok.
  destruct (for_dialogs_seen ign (build_entities r)
              (build_messages (build_entities r) r) walked (at_page lim st))
    as (Hsub & Heq & _).
  destruct (for_dialogs_order ign (build_entities r)
              (build_messages (build_entities r) r) walked (at_page lim st))
    as (new & Hnew & Hord & Hall).
  split; [subst st'; rewrite loop_body_sent, Hq; reflexivity|].
  split.
  { intros l -> Hlong. subst walked. simpl.
    pose proof Hlong as Hb. apply Z.ltb_lt in Hb. rewrite Hb.
    rewrite length_firstn. lia. }
  split.
  { exists new. subst st'. rewrite Hy. split; [exact Hnew|].
    split; [exact Hord|].
    eapply Forall_impl; [exact Hall|]. simpl. intros cd (_ & Hin). exact Hin. }
  split; [subst st'; rewrite Hs; exact Hsub|].
  intros Hn. subst st'. rewrite Hs. apply Heq, Hok, Hn.
Qed.

(** The first pass of the loop is made whenever the guard holds, and
    its request stays the first of the run. *)
Lemma while_loop_first_request lim ign fuel st :
  lt_limit (Z.of_nat (size (seen st))) lim = true ->
  (sent st ++ [next_request lim st])
    `prefix_of` sent (fst (while_loop (S fuel) lim ign st)).
Proof.
  intros G. cbn [while_loop]. rewrite G.
  pose proof (loop_body_sent lim ign st) as Hs.
  destruct (loop_body lim ign st) as [st1 [| |e]]; simpl in *;
    try (rewrite Hs; reflexivity).
  rewrite <- Hs. apply while_loop_extends.
Qed.

(** With a handle that held [t] at the call, the handle holds the
    total of the page fetched last, and [t] before any fetch. *)
Lemma iter_dialogs_total_last fuel lim od oid op ign t c :
  let st := fst (iter_dialogs fuel lim od oid op ign (Some t) c) in
  total st = Some (match py_last (sent st) with
                   | Some q => page_total (rpc (length (sent st) - 1) q)
                   | None => t
                   end).
Proof.
  unfold iter_dialogs. destruct (limit_is_zero lim); [reflexivity|].
  apply (while_loop_rule lim ign
           (fun st => total st = Some (match py_last (sent st) with
                       | Some q => page_total (rpc (length (sent st) - 1) q)
                       | None => t
                       end))
           (fun st _ => total st = Some (match py_last (sent st) with
                       | Some q => page_total (rpc (length (sent st) - 1) q)
                       | None => t
                       end))); auto.
  intros st Ht G.
  assert (Hnew : total (fst (loop_body lim ign st)) =
                 Some (match py_last (sent (fst (loop_body lim ign st))) with
                       | Some q => page_total
                           (rpc (length (sent (fst (loop_body lim ign st))) - 1) q)
                       | None => t
                       end)).
  { rewrite loop_body_total, loop_body_sent. simpl. rewrite Ht.
    unfold py_last. rewrite last_snoc, length_app. simpl.
    unfold next_response. do 3 f_equal. lia. }
  destruct (loop_body lim ign st) as [st' [| |e]]; simpl in *; exact Hnew.
Qed.

(** C7: under a limit that is positive or unbounded, with a total
    handle: every pass overwrites the handle with the total of its
    page (the [count] of the response when it has one, the number of
    its dialogs otherwise); the first request is sent as soon as the
    generator runs; at every point of the run the handle holds the
    total of the page fetched last; and [get_dialogs], which passes a
    handle holding 0, returns when the generator returns, with the
    yielded records in order and the total of the page fetched last,
    and returns the same however much longer it is let run. *)
Theorem total_overwritten_each_page fuel lim od oid op ign c :
  match lim with Inf => True | Fin l => 0 < l end ->
  (forall st,
     total (fst (loop_body lim ign st)) =
     match total st with
     | Some _ =>
         let r := rpc (length (sent st))
                      (mkRequest (offset_date (req st)) (offset_id (req st))
                         (offset_peer (req st))
                         (match lim with
                          | Inf => 100
                          | Fin l => Z.min (l - Z.of_nat (size (seen st))) 100
                          end)
                         (hash (req st)) (exclude_pinned (req st))) in
         Some (match count r with
               | Some n => n
               | None => Z.of_nat (length (dialogs r))
               end)
     | None => None
     end) /\
  (forall t,
     sent (fst (iter_dialogs (S fuel) lim od oid op ign (Some t) c)) !! 0%nat
     = Some (mkRequest od oid (inl op)
               (match lim with Inf => 100 | Fin l => Z.min l 100 end) 0 false)) /\
  (forall t,
     let st := fst (iter_dialogs fuel lim od oid op ign (Some t) c) in
     total st =
     Some (match last (sent st) with
           | Some q =>
               match count (rpc (length (sent st) - 1) q) with
               | Some n => n
               | None => Z.of_nat (length (dialogs (rpc (length (sent st) - 1) q)))
               end
           | None => t
           end)) /\
  get_dialogs fuel lim od oid op ign c =
    (let '(st, s) := iter_dialogs fuel lim od oid op ign (Some 0) c in
     match s with
     | Returned =>
         (Returned,
          Some (yielded st,
                match last (sent st) with
                | Some q =>
                    match count (rpc (length (sent st) - 1) q) with
                    | Some n => n
                    | None =>
                        Z.of_nat (length (dialogs (rpc (length (sent st) - 1) q)))
                    end
                | None => 0
                end))
     | _ => (s, None)
     end) /\
  (forall fuel',
     snd (iter_dialogs fuel lim od oid op ign (Some 0) c) <> Running ->
     (fuel <= fuel')%nat ->
     get_dialogs fuel' lim od oid op ign c = get_dialogs fuel lim od oid op ign c).
Proof.
  intros Hpos.
  assert (Hz : limit_is_zero lim = false).
  { destruct lim as [|l]; [reflexivity|]. apply Z.eqb_neq. lia. }
  split; [|split; [|split; [|split]]].
  - intros st. rewrite loop_body_total. simpl.
    destruct (total st); [|reflexivity].
    destruct lim; reflexivity.
  - intros t. unfold iter_dialogs. rewrite Hz.
    assert (G : lt_limit (Z.of_nat (size (seen (start
                  (mkRequest od oid (inl op) 0 0 false) (Some t) c)))) lim = true).
    { cbn [seen start]. rewrite size_empty.
      destruct lim as [|l]; [reflexivity|]. apply Z.ltb_lt. simpl. lia. }
    pose proof (while_loop_first_request lim ign fuel _ G) as Hp.
    cbn [sent start app] in Hp.
    destruct Hp as (rest & ->). simpl.
    unfold next_request. cbn [seen start req]. rewrite size_empty.
    destruct lim as [|l]; simpl; [reflexivity|].
    rewrite Z.sub_0_r. reflexivity.
  - intros t. apply (iter_dialogs_total_last fuel lim od oid op ign t c).
  - rewrite get_dialogs_drains. reflexivity.
  - intros fuel' Hend Hle. unfold get_dialogs.
    assert (E : iter_dialogs fuel' lim od oid op ign (Some 0) c
                = iter_dialogs fuel lim od oid op ign (Some 0) c).
    { unfold iter_dialogs in *. rewrite Hz in *.
      apply while_loop_more_fuel; assumption. }
    rewrite E. reflexivity.
Qed.

End Enumeration.

(** * Draft listing *)

Section Drafts.

(** The updates of the answer to [GetAllDraftsRequest], the draft
    records of [custom.Draft], and [custom.Draft._from_update] bound to
    the client: none of them is declared in [dialogs.py]. *)
Variable Update : Type.
Variable Draft : Type.
Variable from_update : Update -> Draft.

(** The answer to the [n]-th [GetAllDraftsRequest]: its [updates]. *)
Variable drafts_rpc : nat -> list Update.

(** What the draft generator has done: the requests it has awaited and
    the drafts it has yielded, in order. *)
Record DraftState : Type := mkDraftState {
  drafts_sent : nat;
  drafts_yielded : list Draft
}.

(** Lines 148-149: the [for] loop over [r.updates]. *)
Fixpoint for_updates (us : list Update) (st : DraftState) : DraftState :=
  match us with
  | [] => st
  | u :: us' =>
      for_updates us'
        (mkDraftState (drafts_sent st) (drafts_yielded st ++ [from_update u]))
  end.

(** [iter_drafts], lines 137-149, by a client that has sent [n]
    draft requests before. *)
Definition iter_drafts (n : nat) : DraftState :=
  let r := drafts_rpc n in
  for_updates r (mkDraftState (S n) []).

(** [get_drafts], lines 151-158: [result.append(x)] for each draft. *)
Definition get_drafts (n : nat) : list Draft :=
  fold_left (fun result x => result ++ [x]) (drafts_yielded (iter_drafts n)) [].

Lemma for_updates_spec us : forall st,
  for_updates us st =
  mkDraftState (drafts_sent st) (drafts_yielded st ++ map from_update us).
Proof.
  induction us as [|u us IH]; intros [n ys]; simpl.
  - rewrite app_nil_r. reflexivity.
  - rewrite IH. simpl. rewrite <- app_assoc. reflexivity.
Qed.

Lemma fold_append {A : Type} (xs : list A) : forall acc,
  fold_left (fun result x => result ++ [x]) xs acc = acc ++ xs.
Proof.
  induction xs as [|x xs IH]; intros acc; simpl.
  - rewrite app_nil_r. reflexivity.
  - rewrite IH, <- app_assoc. reflexivity.
Qed.

(** X14: [get_drafts] returns one draft for each update of the answer, in
    the order of the answer, after exactly one request; no update, no
    draft. *)
Theorem get_drafts_maps_updates (n : nat) :
  get_drafts n = map from_update (drafts_rpc n) /\
  drafts_sent (iter_drafts n) = S n /\
  length (get_drafts n) = length (drafts_rpc n) /\
  (drafts_rpc n = [] -> get_drafts n = []).
Proof.
  assert (H : get_drafts n = map from_update (drafts_rpc n)).
  { unfold get_drafts, iter_drafts. rewrite for_updates_spec, fold_append.
    reflexivity. }
  split; [exact H|]. split.
  - unfold iter_drafts. rewrite for_updates_spec. reflexivity.
  - split; [rewrite H; apply length_map|].
    intros E. rewrite H, E. reflexivity.
Qed.

End Drafts.

(** * Fixture services *)

Module Fixture.

(** A peer is its id; an entity is its id with its [migrated_to];
    there is one input peer, the empty one; a date is a number. *)
Definition Peer : Type := Z.
Definition InputPeer : Type := unit.
Definition Entity : Type := (Z * option Z)%type.
Definition Date : Type := Z.
Definition peer_id (p : Peer) : Z := p.
Definition entity_id (e : Entity) : Z := fst e.
Definition migrated (e : Entity) : option Z := snd e.

Abbreviation Req := (Request InputPeer Entity Date).
Abbreviation Resp := (Response Peer Entity Date).
Abbreviation St := (State Peer InputPeer Entity Date).

(** Dialog number [i], its last message and its entity; the entity
    of dialog [mig] has migrated. *)
Definition dlg (i : Z) : DialogSummary Peer := mkSummary Peer i false i (Some i).
Definition msg (i : Z) : Message Date := mkMessage Date i (1000 + i).
Definition ent (mig i : Z) : Entity := (i, if i =? mig then Some 999 else None).

Definition ids (from : Z) (n : nat) : list Z :=
  map (fun k => from + Z.of_nat k) (seq 0 n).

Definition page (sh : Shape) (c : option Z) (mig : Z) (js : list Z) : Resp :=
  mkResponse Peer Entity Date sh c (map dlg js) (map msg js) (map (ent mig) js) [].

(** A service holding the dialogs [1..N]: it answers with the next
    [limit] dialogs after [offset_id], as a slice that reports [N]. *)
Definition service (mig N : Z) (_ : nat) (q : Req) : Resp :=
  let k := Z.to_nat (Z.min (limit _ _ _ q) (N - offset_id _ _ _ q)) in
  page DialogsSlice (Some N) mig (ids (offset_id _ _ _ q + 1) k).

(** A service that answers every request with the same [n] dialogs. *)
Definition repeating (n : nat) (_ : nat) (_ : Req) : Resp :=
  page DialogsSlice (Some (Z.of_nat n)) 0 (ids 1 n).

Definition run (rpc : nat -> Req -> Resp) (fuel : nat) (lim : Limit)
    (ign : bool) (t : option Z) : St * Status :=
  iter_dialogs Peer InputPeer Entity Date peer_id entity_id migrated rpc
               fuel lim None 0 tt ign t ∅.

Definition begin (oid : Z) : St :=
  start Peer InputPeer Entity Date (mkRequest _ _ _ None oid (inl tt) 0 0 false)
        None ∅.

(** The request of a caller who passes no offsets, with its page size
    still unset. *)
Definition q0 : Req := mkRequest _ _ _ None 0 (inl tt) 0 0 false.

(** A service that answers the [n]-th request with the [n]-th page of a
    script, and with an empty complete page after the script. *)
Definition scripted (pages : list Resp) (n : nat) (_ : Req) : Resp :=
  nth n pages (page Dialogs None 0 []).

(** A full slice of one dialog that carries no message. *)
Definition page_without_message : Resp :=
  mkResponse Peer Entity Date DialogsSlice (Some 9) [dlg 1] [] [ent 0 1] [].

(** A first page that names dialog 2 twice, and a second page that
    repeats dialog 2 without its entity. *)
Definition page_one_two_two : Resp :=
  mkResponse Peer Entity Date DialogsSlice (Some 9) [dlg 1; dlg 2; dlg 2]
             [msg 1; msg 2] [ent 0 1; ent 0 2] [].
Definition page_two_without_entity : Resp :=
  mkResponse Peer Entity Date DialogsSlice (Some 9) [dlg 2] [msg 3] [] [].


(** [get_dialogs] of a caller who passes no offsets. *)
Definition collect (rpc : nat -> Req -> Resp) (fuel : nat) (lim : Limit)
  : Status * option (list (Dialog Peer Entity Date) * Z) :=
  get_dialogs Peer InputPeer Entity Date peer_id entity_id migrated rpc
              fuel lim None 0 tt false ∅.

(** The state after one pass against [service 1 500] with limit 150 and
    [ignore_migrated]. *)
Definition after_first_page : St :=
  fst (while_loop _ _ _ _ peer_id entity_id migrated (service 1 500) 1 (Fin 150)
                  true (begin 0)).

(** The state after the first pass against a service that answers
    every request with the same 100 dialogs. *)
Definition after_repeated_page : St :=
  fst (loop_body _ _ _ _ peer_id entity_id migrated (repeating 100) Inf false
                 (begin 0)).

(** The second request of an unbounded run against 150 dialogs. *)
Definition second_request : Req :=
  mkRequest InputPeer Entity Date (Some 1100) 100 (inr (100, None)) 100 0 true.

End Fixture.

Import Fixture.

(** * The claims on the fixture services *)

(** ** Pinned overflow *)

(** C2 fails as stated: under an unbounded limit, and under a limit of
    200, the first request asks for 100 dialogs, the service answers
    with 105, and all 105 are walked and yielded. *)
Lemma pinned_overflow_not_cut_to_page_size :
  let r := repeating 105 0 (with_limit _ _ _ 100 q0) in
  let st := fst (run (repeating 105) 1 Inf false None) in
  let st' := fst (run (repeating 105) 1 (Fin 200) false None) in
  map (limit _ _ _) (sent _ _ _ _ st) = [100] /\
  map (limit _ _ _) (sent _ _ _ _ st') = [100] /\
  len (dialogs _ _ _ r) = 105 /\
  len (page_dialogs _ _ _ Inf r) <> 100 /\
  len (page_dialogs _ _ _ (Fin 200) r) <> 100 /\
  length (yielded _ _ _ _ st) = 105%nat /\
  length (yielded _ _ _ _ st') = 105%nat.
Proof. vm_compute. repeat split; try reflexivity; discriminate. Qed.

(** A pass with limit 100 against the service that answers with 105
    dialogs: the request asks for 100, the page is cut to its first 100
    dialogs, and these 100 enter the dedup set and are yielded. *)
Lemma overflowing_page_cut_to_limit_witness :
  Z.of_nat (size (seen _ _ _ _ (begin 0))) < 100 /\
  (forall e, snd (loop_body _ _ _ _ peer_id entity_id migrated (repeating 105)
                            (Fin 100) false (begin 0)) <> Raise e) /\
  map (limit _ _ _)
      (sent _ _ _ _ (fst (loop_body _ _ _ _ peer_id entity_id migrated
                                    (repeating 105) (Fin 100) false (begin 0))))
    = [100] /\
  len (dialogs _ _ _ (repeating 105 0 (with_limit _ _ _ 100 q0))) = 105 /\
  size (seen _ _ _ _ (fst (loop_body _ _ _ _ peer_id entity_id migrated
                                     (repeating 105) (Fin 100) false (begin 0))))
    = 100%nat /\
  length (yielded _ _ _ _ (fst (loop_body _ _ _ _ peer_id entity_id migrated
                                          (repeating 105) (Fin 100) false
                                          (begin 0))))
    = 100%nat.
Proof.
  assert (H1 : Z.of_nat (size (seen _ _ _ _ (begin 0))) < 100)
    by (vm_compute; reflexivity).
  assert (H2 : forall e, snd (loop_body _ _ _ _ peer_id entity_id migrated
                                (repeating 105) (Fin 100) false (begin 0))
                         <> Raise e)
    by (intros e; vm_compute; discriminate).
  split; [exact H1|]. split; [exact H2|].
  pose proof (overflowing_page_cut_to_limit Peer InputPeer Entity Date peer_id
                entity_id migrated (repeating 105) (Fin 100) false (begin 0) H1)
    as H.
  cbv zeta in H. destruct H as (Hsent & _ & _ & _ & Hseen).
  split; [rewrite Hsent; vm_compute; reflexivity|].
  split; [vm_compute; reflexivity|].
  split; [rewrite (Hseen H2); vm_compute; reflexivity|].
  vm_compute. reflexivity.
Defined.

(** Against the same service, the first request asks for 100 dialogs
    under each of the limits 100 to 105; the 105 dialogs of the answer
    are cut to the limit, and the pass yields that many records. *)
Example overflow_cut_for_limits_100_to_105 :
  map (fun l => map (limit _ _ _)
                    (sent _ _ _ _ (fst (run (repeating 105) 1 (Fin l) false None))))
      [100; 101; 102; 103; 104; 105]
    = [[100]; [100]; [100]; [100]; [100]; [100]] /\
  map (fun l => length (yielded _ _ _ _
                          (fst (run (repeating 105) 1 (Fin l) false None))))
      [100; 101; 102; 103; 104; 105]
    = [100; 101; 102; 103; 104; 105]%nat.
Proof. vm_compute. split; reflexivity. Qed.

(** With a limit of 100 the same page is cut to 100 dialogs. *)
Lemma page_dialogs_cut_to_limit_witness :
  let r := repeating 105 0 (with_limit _ _ _ 100 q0) in
  0 <= 100 /\ 100 < len (dialogs _ _ _ r) /\
  len (page_dialogs _ _ _ (Fin 100) r) = 100.
Proof.
  split; [lia|]. split; [vm_compute; reflexivity|].
  apply (page_dialogs_cut_to_limit Peer Entity Date 100
           (repeating 105 0 (with_limit _ _ _ 100 q0))).
  - lia.
  - vm_compute. reflexivity.
Defined.

(** ** The loop guard *)

(** C3 fails as stated. With limit 1 and [ignore_migrated], the only
    dialog of the first page is migrated: nothing is yielded, the pass
    ends without a termination condition ([Next]), and the generator
    returns after that one request although the service holds 499 more
    dialogs. With limit 150, the first page yields 99 records and the
    second request asks for 50 dialogs, not 51; the run ends with 149
    records. *)
Lemma filtered_dialog_counts_for_limit :
  (let '(st, s) := run (service 1 500) 5 (Fin 1) true None in
   s = Returned /\ yielded _ _ _ _ st = [] /\
   map (limit _ _ _) (sent _ _ _ _ st) = [1] /\
   snd (loop_body _ _ _ _ peer_id entity_id migrated (service 1 500)
                  (Fin 1) true (begin 0)) = Next) /\
  (let '(st, s) := run (service 1 500) 5 (Fin 150) true None in
   s = Returned /\ length (yielded _ _ _ _ st) = 149%nat /\
   map (limit _ _ _) (sent _ _ _ _ st) = [100; 50] /\
   length (yielded _ _ _ _
     (fst (run (service 1 500) 0 (Fin 150) true None))) = 0%nat /\
   length (yielded _ _ _ _
     (fst (loop_body _ _ _ _ peer_id entity_id migrated (service 1 500)
                     (Fin 150) true (begin 0)))) = 99%nat).
Proof. vm_compute. repeat split; reflexivity. Qed.

(** After one pass with limit 150 and [ignore_migrated] the loop is
    still running, with 100 dialogs in the dedup set and 99 records
    yielded; the next request asks for [min(150 - 100, 100)] dialogs. *)
Lemma loop_runs_on_dedup_size_witness :
  0 < 150 /\
  while_loop _ _ _ _ peer_id entity_id migrated (service 1 500) 1 (Fin 150)
             true (begin 0) = (after_first_page, Running) /\
  size (seen _ _ _ _ after_first_page) = 100%nat /\
  length (yielded _ _ _ _ after_first_page) = 99%nat /\
  sent _ _ _ _ (fst (loop_body _ _ _ _ peer_id entity_id migrated
                               (service 1 500) (Fin 150) true after_first_page))
    = sent _ _ _ _ after_first_page
      ++ [mkRequest _ _ _
            (offset_date _ _ _ (req _ _ _ _ after_first_page))
            (offset_id _ _ _ (req _ _ _ _ after_first_page))
            (offset_peer _ _ _ (req _ _ _ _ after_first_page))
            (Z.min (150 - Z.of_nat (size (seen _ _ _ _ after_first_page))) 100)
            (hash _ _ _ (req _ _ _ _ after_first_page))
            (exclude_pinned _ _ _ (req _ _ _ _ after_first_page))] /\
  map (limit _ _ _)
      (sent _ _ _ _ (fst (loop_body _ _ _ _ peer_id entity_id migrated
                                    (service 1 500) (Fin 150) true
                                    after_first_page)))
    = [100; 50].
Proof.
  assert (Hr : snd (while_loop _ _ _ _ peer_id entity_id migrated
                      (service 1 500) 1 (Fin 150) true (begin 0)) = Running)
    by (vm_compute; reflexivity).
  assert (H : while_loop _ _ _ _ peer_id entity_id migrated (service 1 500) 1
                (Fin 150) true (begin 0) = (after_first_page, Running)).
  { unfold after_first_page. rewrite <- Hr. apply surjective_pairing. }
  split; [lia|]. split; [exact H|].
  split; [vm_compute; reflexivity|]. split; [vm_compute; reflexivity|].
  destruct (loop_runs_on_dedup_size Peer InputPeer Entity Date peer_id
              entity_id migrated (service 1 500) 150 true 1
              None 0 tt None ∅ after_first_page ltac:(lia) H)
    as (_ & _ & Hs & _).
  split; [exact Hs|]. vm_compute. reflexivity.
Defined.

(** ** The stuck cursor *)

(** The second page repeats the first: its last message has the id the
    cursor already holds, and the run ends after the second request. *)
Lemma stuck_cursor_stops_witness :
  lt_limit (Z.of_nat (size (seen _ _ _ _ after_repeated_page))) Inf = true /\
  py_last (messages _ _ _ (next_response _ _ _ _ (repeating 100) Inf
                                         after_repeated_page)) = Some (msg 100) /\
  id _ (msg 100) = offset_id _ _ _ (req _ _ _ _ after_repeated_page) /\
  snd (loop_body _ _ _ _ peer_id entity_id migrated (repeating 100) Inf false
                 after_repeated_page) <> Next /\
  snd (while_loop _ _ _ _ peer_id entity_id migrated (repeating 100) 8 Inf false
                  after_repeated_page) <> Running.
Proof.
  assert (H1 : lt_limit (Z.of_nat (size (seen _ _ _ _ after_repeated_page))) Inf
               = true) by reflexivity.
  assert (H2 : py_last (messages _ _ _ (next_response _ _ _ _ (repeating 100) Inf
                 after_repeated_page)) = Some (msg 100))
    by (vm_compute; reflexivity).
  assert (H3 : id _ (msg 100) = offset_id _ _ _ (req _ _ _ _ after_repeated_page))
    by (vm_compute; reflexivity).
  split; [exact H1|]. split; [exact H2|]. split; [exact H3|].
  destruct (stuck_cursor_stops Peer InputPeer Entity Date peer_id entity_id
              migrated (repeating 100) Inf false 7 after_repeated_page (msg 100)
              H1 H2 H3) as (Hn & _ & Hr & _).
  split; [exact Hn | exact Hr].
Defined.

(** Run from the start, that service is asked exactly twice and every
    dialog is yielded once. *)
Example repeating_service_run :
  let '(st, s) := run (repeating 100) 8 Inf false None in
  s = Returned /\ length (sent _ _ _ _ st) = 2%nat /\
  length (yielded _ _ _ _ st) = 100%nat.
Proof. vm_compute. repeat split; reflexivity. Qed.

(** ** Short and complete pages *)

(** A service with 30 dialogs answers the first request for 100 with a
    short page, and the unbounded run ends there. *)
Lemma short_or_complete_page_stops_witness :
  lt_limit (Z.of_nat (size (seen _ _ _ _ (begin 0)))) Inf = true /\
  snd (after_page _ _ _ _ peer_id entity_id migrated (service 0 30) Inf false
                  (begin 0)) = None /\
  len (dialogs _ _ _ (next_response _ _ _ _ (service 0 30) Inf (begin 0)))
    < limit _ _ _ (next_request _ _ _ _ Inf (begin 0)) /\
  while_loop _ _ _ _ peer_id entity_id migrated (service 0 30) 4 Inf false
             (begin 0)
    = (fst (after_page _ _ _ _ peer_id entity_id migrated (service 0 30) Inf
                       false (begin 0)), Returned).
Proof.
  assert (H1 : lt_limit (Z.of_nat (size (seen _ _ _ _ (begin 0)))) Inf = true)
    by reflexivity.
  assert (H2 : snd (after_page _ _ _ _ peer_id entity_id migrated (service 0 30)
                      Inf false (begin 0)) = None) by (vm_compute; reflexivity).
  assert (H3 : len (dialogs _ _ _ (next_response _ _ _ _ (service 0 30) Inf
                      (begin 0)))
               < limit _ _ _ (next_request _ _ _ _ Inf (begin 0)))
    by (vm_compute; reflexivity).
  split; [exact H1|]. split; [exact H2|]. split; [exact H3|].
  apply (short_or_complete_page_stops Peer InputPeer Entity Date peer_id
           entity_id migrated (service 0 30) 3 Inf false (begin 0) H1 H2).
  left. exact H3.
Defined.

(** The same run yields the 30 dialogs after one request; and a
    complete (non-slice) answer ends a run with limit 2 after one
    request although it filled the page. *)
Example short_and_complete_runs :
  (let '(st, s) := run (service 0 30) 4 Inf false None in
   s = Returned /\ length (sent _ _ _ _ st) = 1%nat /\
   length (yielded _ _ _ _ st) = 30%nat) /\
  (let '(st, s) := run (fun _ _ => page Dialogs None 0 (ids 1 1)) 4 (Fin 2)
                       false None in
   s = Returned /\ length (sent _ _ _ _ st) = 1%nat /\
   length (yielded _ _ _ _ st) = 1%nat).
Proof. vm_compute. repeat split; reflexivity. Qed.

(** ** The total counter and the collector *)

(** [get_dialogs] with limit 10 against a service that holds 500
    dialogs returns 10 records and the total 500 after one request;
    against a complete answer without a count, the total is the number
    of dialogs of the page. *)
Example get_dialogs_ten_of_five_hundred :
  match collect (service 0 500) 4 (Fin 10) with
  | (Returned, Some (records, t)) =>
      map (fun cd => dialog_id _ _ _ cd) records = ids 1 10 /\ t = 500
  | _ => False
  end /\
  length (sent _ _ _ _ (fst (run (service 0 500) 4 (Fin 10) false (Some 0))))
    = 1%nat /\
  match collect (fun _ _ => page Dialogs None 0 (ids 1 3)) 4 Inf with
  | (Returned, Some (records, t)) => length records = 3%nat /\ t = 3
  | _ => False
  end.
Proof. vm_compute. repeat split; reflexivity. Qed.

(** [get_dialogs] with limit 10 against the service that holds 500
    dialogs: the first request asks for 10 dialogs with the caller's
    offsets, it is the only one, the generator returns, and the result
    is the ten records of dialogs 1 to 10, in order, with the total
    500. *)
Lemma total_overwritten_each_page_witness :
  0 < 10 /\
  sent _ _ _ _
       (fst (iter_dialogs Peer InputPeer Entity Date peer_id entity_id migrated
                          (service 0 500) 4 (Fin 10) None 0 tt false (Some 0) ∅))
    !! 0%nat
  = Some (mkRequest InputPeer Entity Date None 0 (inl tt) (Z.min 10 100) 0 false) /\
  map (limit _ _ _)
      (sent _ _ _ _
         (fst (iter_dialogs Peer InputPeer Entity Date peer_id entity_id
                 migrated (service 0 500) 4 (Fin 10) None 0 tt false
                 (Some 0) ∅)))
  = [10] /\
  fst (collect (service 0 500) 4 (Fin 10)) = Returned /\
  option_map (fun res => (map (fun cd => dialog_id _ _ _ cd) (fst res), snd res))
             (snd (collect (service 0 500) 4 (Fin 10)))
  = Some (ids 1 10, 500).
Proof.
  split; [lia|].
  destruct (total_overwritten_each_page Peer InputPeer Entity Date peer_id
              entity_id migrated (service 0 500) 3 (Fin 10) None 0 tt false ∅
              ltac:(simpl; lia)) as (_ & Hfirst & _).
  split; [exact (Hfirst 0)|].
  split; [vm_compute; reflexivity|].
  split; vm_compute; reflexivity.
Defined.

(** ** One dialog *)




(** ** The cursor advance *)

(** The first page of ten dialogs of a run with limit 10 passes both
    checks and has a last dialog. *)
Lemma cursor_advance_needs_message_and_entity_witness :
  lt_limit (Z.of_nat (size (seen _ _ _ _ (begin 0)))) (Fin 10) = true /\
  snd (after_page _ _ _ _ peer_id entity_id migrated (service 0 500) (Fin 10)
                  false (begin 0)) = None /\
  page_ends _ _ _ _
    (page_dialogs _ _ _ (Fin 10)
       (next_response _ _ _ _ (service 0 500) (Fin 10) (begin 0)))
    (next_request _ _ _ _ (Fin 10) (begin 0))
    (next_response _ _ _ _ (service 0 500) (Fin 10) (begin 0)) = false /\
  exists d,
    py_last (page_dialogs _ _ _ (Fin 10)
               (next_response _ _ _ _ (service 0 500) (Fin 10) (begin 0)))
      = Some d /\
    ((exists e, snd (loop_body _ _ _ _ peer_id entity_id migrated
                               (service 0 500) (Fin 10) false (begin 0))
                = Raise e) <->
     (messages _ _ _ (next_response _ _ _ _ (service 0 500) (Fin 10) (begin 0))
        = [] \/
      build_entities _ _ _ entity_id
        (next_response _ _ _ _ (service 0 500) (Fin 10) (begin 0))
        !! peer_id (peer _ d) = None)).
Proof.
  assert (H1 : lt_limit (Z.of_nat (size (seen _ _ _ _ (begin 0)))) (Fin 10) = true)
    by reflexivity.
  assert (H2 : snd (after_page _ _ _ _ peer_id entity_id migrated (service 0 500)
                      (Fin 10) false (begin 0)) = None)
    by (vm_compute; reflexivity).
  assert (H3 : page_ends _ _ _ _
     (page_dialogs _ _ _ (Fin 10)
        (next_response _ _ _ _ (service 0 500) (Fin 10) (begin 0)))
     (next_request _ _ _ _ (Fin 10) (begin 0))
     (next_response _ _ _ _ (service 0 500) (Fin 10) (begin 0)) = false)
    by (vm_compute; reflexivity).
  split; [exact H1|]. split; [exact H2|]. split; [exact H3|].
  destruct (cursor_advance_needs_message_and_entity Peer InputPeer Entity Date
              peer_id entity_id migrated (service 0 500) (Fin 10) false
              (begin 0) H1 H2 H3) as (d & Hd & _ & Hiff).
  exists d. split; [exact Hd | exact Hiff].
Defined.

(** A full slice without a message stops the run with [IndexError]; a
    full slice whose last dialog was seen on an earlier page and has no
    entity on this one stops it with [KeyError]; in both runs the
    termination checks had let the page pass. *)
Example cursor_advance_failures :
  snd (run (scripted [page_without_message]) 4 (Fin 1) false None)
    = Raised IndexError /\
  snd (run (scripted [page_one_two_two; page_two_without_entity]) 4 (Fin 3)
           false None) = Raised (KeyError 2) /\
  length (sent _ _ _ _
            (fst (run (scripted [page_one_two_two; page_two_without_entity]) 4
                      (Fin 3) false None))) = 2%nat.
Proof. vm_compute. repeat split; reflexivity. Qed.

(** * The further properties on the fixture services *)

(** [service] returns no more dialogs than a request of positive size
    asks for. *)
Lemma service_respects_size mig N n (q : Req) :
  1 <= limit _ _ _ q ->
  len (dialogs _ _ _ (service mig N n q)) <= limit _ _ _ q.
Proof.
  intros Hq. unfold service, page, ids, len. simpl.
  rewrite !length_map, length_seq. lia.
Qed.

(** A run with limit 150 against 500 dialogs yields at most 150
    records. *)
Lemma at_most_limit_records_witness :
  0 <= 150 /\
  len (yielded _ _ _ _ (fst (run (service 0 500) 9 (Fin 150) false None))) <= 150.
Proof.
  split; [lia|]. unfold run.
  apply (at_most_limit_records Peer InputPeer Entity Date peer_id entity_id
           migrated (service 0 500) 9 150 None 0 tt false None ∅).
  - lia.
  - intros n q _ Hq. apply service_respects_size, Hq.
Defined.

(** The two requests of an unbounded run against 150 dialogs: the
    second carries the date and id of message 100 and the entity of
    dialog 100. *)
Lemma cursor_follows_pages_witness :
  sent _ _ _ _ (fst (run (service 0 150) 7 Inf false None)) !! 0%nat
    = Some (with_limit _ _ _ 100 q0) /\
  sent _ _ _ _ (fst (run (service 0 150) 7 Inf false None)) !! 1%nat
    = Some second_request /\
  exists m, py_last (messages _ _ _ (service 0 150 0 (with_limit _ _ _ 100 q0)))
              = Some m /\
            offset_id _ _ _ second_request = id _ m /\
            offset_id _ _ _ second_request
              <> offset_id _ _ _ (with_limit _ _ _ 100 q0).
Proof.
  assert (H0 : sent _ _ _ _ (fst (run (service 0 150) 7 Inf false None)) !! 0%nat
               = Some (with_limit _ _ _ 100 q0)) by (vm_compute; reflexivity).
  assert (H1 : sent _ _ _ _ (fst (run (service 0 150) 7 Inf false None)) !! 1%nat
               = Some second_request) by (vm_compute; reflexivity).
  split; [exact H0|]. split; [exact H1|].
  unfold run in H0, H1.
  destruct (cursor_follows_pages Peer InputPeer Entity Date peer_id entity_id
              migrated (service 0 150) 7 Inf None 0 tt false None ∅ 0%nat
              (with_limit _ _ _ 100 q0) second_request H0 H1)
    as (m & d & e & Hm & _ & _ & _ & Hid & _ & _ & Hne).
  exists m. split; [exact Hm|]. split; [exact Hid | exact Hne].
Defined.

(** The first pass of an unbounded run against 30 dialogs leaves
    exactly these 30 in the dedup set. *)
Lemma pass_records_every_dialog_witness :
  snd (after_page _ _ _ _ peer_id entity_id migrated (service 0 30) Inf false
                  (begin 0)) = None /\
  seen _ _ _ _ (fst (loop_body _ _ _ _ peer_id entity_id migrated (service 0 30)
                               Inf false (begin 0)))
  = seen _ _ _ _ (begin 0)
    ∪ list_to_set (map (dialog_peer_id _ peer_id)
                       (page_dialogs _ _ _ Inf
                          (next_response _ _ _ _ (service 0 30) Inf (begin 0)))).
Proof.
  assert (H : snd (after_page _ _ _ _ peer_id entity_id migrated (service 0 30)
                     Inf false (begin 0)) = None) by (vm_compute; reflexivity).
  split; [exact H|].
  apply (pass_records_every_dialog Peer InputPeer Entity Date peer_id entity_id
           migrated (service 0 30) Inf false (begin 0) H).
Defined.

(** An unbounded run against 150 dialogs returns, and has yielded as
    many records as its dedup set holds. *)
Lemma all_deduped_yielded_witness :
  (forall e, snd (run (service 0 150) 7 Inf false None) <> Raised e) /\
  length (yielded _ _ _ _ (fst (run (service 0 150) 7 Inf false None)))
  = size (seen _ _ _ _ (fst (run (service 0 150) 7 Inf false None))).
Proof.
  assert (H : forall e, snd (run (service 0 150) 7 Inf false None) <> Raised e)
    by (intros e; vm_compute; discriminate).
  split; [exact H|]. unfold run in *.
  apply (all_deduped_yielded Peer InputPeer Entity Date peer_id entity_id
           migrated (service 0 150) 7 Inf None 0 tt None ∅ H).
Defined.

(** With limit 10 the run with a handle yields what the run without
    one yields. *)
Lemma total_handle_is_passive_witness :
  limit_is_zero (Fin 10) = false /\
  yielded _ _ _ _ (fst (run (service 0 500) 4 (Fin 10) false (Some 0)))
  = yielded _ _ _ _ (fst (run (service 0 500) 4 (Fin 10) false None)).
Proof.
  split; [reflexivity|]. unfold run.
  apply (total_handle_is_passive Peer InputPeer Entity Date peer_id entity_id
           migrated (service 0 500) 4 (Fin 10) None 0 tt false 0 ∅).
  reflexivity.
Defined.

(** With limit -3 nothing is asked of the service. *)
Lemma negative_limit_fetches_nothing_witness :
  -3 < 0 /\
  get_dialogs Peer InputPeer Entity Date peer_id entity_id migrated
              (service 0 500) 4 (Fin (-3)) None 0 tt false ∅
  = (Returned, Some ([], 0)).
Proof.
  split; [lia|].
  apply (negative_limit_fetches_nothing Peer InputPeer Entity Date peer_id
           entity_id migrated (service 0 500) 4 (-3) None 0 tt false None ∅).
  lia.
Defined.
